(** * Orb: HTTP subscriber, policy REST handler, witness policy engine,
      in-memory ActivityPub store and expiry service

    A shallow embedding of five parts of the Orb node:

    - [httpsubscriber] (HTTP ingress -> message channel), embedded from its
      Go source, goroutines and channels included;
    - [resthandler] ([PolicyConfigurator.handle]), embedded from its Go source;
    - the witness policy engine ([config.Parse], [WitnessPolicy.Evaluate],
      [WitnessPolicy.Select], [getWitnessPolicyConfig]), whose Go source
      files are missing: it is modelled from the specification and from the
      package's test-suite;
    - [memstore] (activities, references, paging), embedded from its Go
      source;
    - [expiry] (the periodic removal of expired data), embedded from its Go
      source.

    Definitions come first, theorems second. *)

From Stdlib Require Import ZArith String Ascii List Lia Bool DecimalString.
From stdpp Require Import base option list gmap strings relations.

Local Open Scope string_scope.
Local Open Scope Z_scope.

(* ===================================================================== *)
(** * Part I. Definitions                                                 *)
(* ===================================================================== *)

(** ** net/http status codes used by the handlers *)
Module http.
Definition StatusOK : Z := 200.
Definition StatusBadRequest : Z := 400.
Definition StatusUnauthorized : Z := 401.
Definition StatusInternalServerError : Z := 500.
Definition StatusServiceUnavailable : Z := 503.
Definition MethodPost : string := "POST".

(** An [http.ResponseWriter], as far as the handlers use it: the statuses
    passed to [WriteHeader], oldest first, and the bytes passed to [Write]. *)
Record ResponseWriter := mkResponseWriter {
  headers : list Z;
  written : string
}.

Definition newResponseWriter : ResponseWriter := mkResponseWriter [] "".

Definition WriteHeader (w : ResponseWriter) (status : Z) : ResponseWriter :=
  mkResponseWriter (headers w ++ [status]) (written w).

Definition Write (w : ResponseWriter) (body : string) : ResponseWriter :=
  mkResponseWriter (headers w) (written w ++ body)%string.
End http.

(** ** Lifecycle *)
Module lifecycle.
(** Modelled from the spec: package [lifecycle] (its source file is missing).
    Four states; [Start] moves NotStarted to Started and runs the start hook
    once; [Stop] moves Started to Stopping, runs the stop hook once, and ends
    in Stopped. Operations that need Started fail with [ErrNotStarted]. *)
Inductive State :=
| StateNotStarted
| StateStarted
| StateStopping
| StateStopped.

Inductive error := ErrNotStarted.

Definition State_eqb (a b : State) : bool :=
  match a, b with
  | StateNotStarted, StateNotStarted
  | StateStarted, StateStarted
  | StateStopping, StateStopping
  | StateStopped, StateStopped => true
  | _, _ => false
  end.
End lifecycle.

(** ** Go channels *)
Module gochan.
(** A buffered channel [make(chan T, cap)]: the queued elements, the capacity
    and whether [close] was called. With [cap > 0] a send proceeds exactly
    when the buffer has room. *)
Record chan (A : Type) := mkChan {
  buf : list A;
  cap : nat;
  closed : bool
}.
Arguments mkChan {A} _ _ _.
Arguments buf {A} _.
Arguments cap {A} _.
Arguments closed {A} _.

Definition make {A} (n : nat) : chan A := mkChan [] n false.

Definition full {A} (c : chan A) : bool := (cap c <=? length (buf c))%nat.

Inductive SendResult (A : Type) :=
| SendOk (c : chan A)
| SendBlocks
| SendPanic.
Arguments SendOk {A} _.
Arguments SendBlocks {A}.
Arguments SendPanic {A}.

(** [c <- x]: panics on a closed channel, blocks while the buffer is full. *)
Definition send {A} (c : chan A) (x : A) : SendResult A :=
  if closed c then SendPanic
  else if full c then SendBlocks
  else SendOk (mkChan (buf c ++ [x]) (cap c) false).

Inductive RecvResult (A : Type) :=
| RecvOk (x : A) (c : chan A)
| RecvClosed
| RecvBlocks.
Arguments RecvOk {A} _ _.
Arguments RecvClosed {A}.
Arguments RecvBlocks {A}.

(** [<-c]: the oldest element; on an empty channel it blocks, unless the
    channel is closed. *)
Definition recv {A} (c : chan A) : RecvResult A :=
  match buf c with
  | x :: rest => RecvOk x (mkChan rest (cap c) (closed c))
  | [] => if closed c then RecvClosed else RecvBlocks
  end.

(** [close(c)]: panics when the channel is closed already. *)
Definition close {A} (c : chan A) : option (chan A) :=
  if closed c then None else Some (mkChan (buf c) (cap c) true).
End gochan.

(** ** watermill messages *)
Module message.
(** A [*message.Message] of the watermill library, as the subscriber uses it:
    identifier, payload and the metadata map. The two one-shot signals
    ([Acked()] and [Nacked()]) live with the goroutine state below, since
    they are shared between the handler and the consumer. *)
Record Message := mkMessage {
  UUID : string;
  Payload : string;
  Metadata : gmap string string
}.

Inductive AckState := Pending | Acked | Nacked.

(** [msg.Ack()] and [msg.Nack()]: the first call wins, later calls change
    nothing. *)
Definition Ack (a : AckState) : AckState :=
  match a with Pending => Acked | _ => a end.
Definition Nack (a : AckState) : AckState :=
  match a with Pending => Nacked | _ => a end.
End message.

(** ** Package httpsubscriber *)
Module httpsubscriber.
Import message gochan.

Definition ActorIRIKey : string := "actor-iri".
Definition defaultBufferSize : Z := 100.

(** [Config]: the HTTP subscriber configuration parameters. *)
Record Config := mkConfig {
  ServiceEndpoint : string;
  BufferSize : Z
}.

(** The fields of [Subscriber] that goroutines share. [pubChan] and [msgChan]
    carry message pointers (here: the index of the request that owns the
    message); [stopped] and [done] are only ever closed. *)
Record Subscriber := mkSubscriber {
  cfg : Config;
  state : lifecycle.State;
  pubChan : chan nat;
  msgChan : chan nat;
  stopped : bool;
  done : bool
}.

Definition set_state (s : Subscriber) (st : lifecycle.State) : Subscriber :=
  mkSubscriber (cfg s) st (pubChan s) (msgChan s) (stopped s) (done s).
Definition set_pubChan (s : Subscriber) (c : chan nat) : Subscriber :=
  mkSubscriber (cfg s) (state s) c (msgChan s) (stopped s) (done s).
Definition set_msgChan (s : Subscriber) (c : chan nat) : Subscriber :=
  mkSubscriber (cfg s) (state s) (pubChan s) c (stopped s) (done s).
Definition set_stopped (s : Subscriber) (b : bool) : Subscriber :=
  mkSubscriber (cfg s) (state s) (pubChan s) (msgChan s) b (done s).
Definition set_done (s : Subscriber) (b : bool) : Subscriber :=
  mkSubscriber (cfg s) (state s) (pubChan s) (msgChan s) (stopped s) b.

(** [New]: a zero [BufferSize] becomes [defaultBufferSize]; both channels are
    made with that capacity ([make] panics on a negative size: [None]); the
    service is started immediately. *)
Definition New (c : Config) : option Subscriber :=
  let size := if BufferSize c =? 0 then defaultBufferSize else BufferSize c in
  if size <? 0 then None
  else
    let c' := mkConfig (ServiceEndpoint c) size in
    Some (mkSubscriber c' lifecycle.StateStarted
            (make (Z.to_nat size)) (make (Z.to_nat size)) false false).

(** [publish], first half: the state test. *)
Definition publish_check (st : lifecycle.State) : option lifecycle.error :=
  if lifecycle.State_eqb st lifecycle.StateStarted then None
  else Some lifecycle.ErrNotStarted.

Inductive PublishResult :=
| PublishNil (s : Subscriber)            (* returned nil: the message is queued *)
| PublishErr (e : lifecycle.error)       (* returned an error *)
| PublishBlocked                         (* waiting in [s.pubChan <- msg] *)
| PublishPanic.

(** [publish], run without interference from other goroutines. *)
Definition publish (s : Subscriber) (msg : nat) : PublishResult :=
  match publish_check (state s) with
  | Some e => PublishErr e
  | None =>
      match send (pubChan s) msg with
      | SendOk c => PublishNil (set_pubChan s c)
      | SendBlocks => PublishBlocked
      | SendPanic => PublishPanic
      end
  end.

(** The cases of the [select] in [respond], in source order. *)
Inductive SelectCase := CaseAcked | CaseNacked | CaseCtxDone | CaseStopped.

(** What [respond] waits on: the message's signals, the request context and
    the subscriber's [stopped] channel. *)
Record Events := mkEvents {
  ev_ack : AckState;
  ev_ctxDone : bool;
  ev_stopped : bool
}.

Definition ready (ev : Events) (c : SelectCase) : bool :=
  match c with
  | CaseAcked => match ev_ack ev with Acked => true | _ => false end
  | CaseNacked => match ev_ack ev with Nacked => true | _ => false end
  | CaseCtxDone => ev_ctxDone ev
  | CaseStopped => ev_stopped ev
  end.

Definition respond_status (c : SelectCase) : Z :=
  match c with
  | CaseAcked => http.StatusOK
  | CaseNacked => http.StatusInternalServerError
  | CaseCtxDone => http.StatusInternalServerError
  | CaseStopped => http.StatusServiceUnavailable
  end.

(** [respond]: the runtime picks one of the ready cases ([pick]); a case that
    is not ready cannot be picked, and with no case ready the select waits
    ([None]). *)
Definition respond (ev : Events) (pick : SelectCase) (w : http.ResponseWriter)
  : option http.ResponseWriter :=
  if ready ev pick then Some (http.WriteHeader w (respond_status pick)) else None.

Section Handler.
(** The collaborators of [handleMessage]: the bearer-token verifier, the HTTP
    signature verifier (verified, actor IRI, error) and the unmarshaller. *)
Variable Request : Type.
Variable Verify : Request -> bool.
Variable VerifyRequest : Request -> bool * option string * option string.
Variable unmarshalMessage : Request -> Message + string.

Inductive AuthResult :=
| AuthOK (actorIRI : option string)
| AuthFailed (status : Z).

(** The authentication cascade at the head of [handleMessage]. *)
Definition authenticate (r : Request) : AuthResult :=
  if Verify r then AuthOK None
  else
    match VerifyRequest r with
    | (_, _, Some _) => AuthFailed http.StatusInternalServerError
    | (false, _, None) => AuthFailed http.StatusUnauthorized
    | (true, actor, None) => AuthOK actor
    end.

(** [handleMessage] up to the call of [publish]: either a status was written
    and the handler returned, or a message is ready to be published. *)
Definition prepare (r : Request) : Z + Message :=
  match authenticate r with
  | AuthFailed status => inl status
  | AuthOK actorIRI =>
      match unmarshalMessage r with
      | inr _ => inl http.StatusBadRequest
      | inl msg =>
          inr match actorIRI with
              | Some a => mkMessage (UUID msg) (Payload msg)
                            (<[ActorIRIKey := a]> (Metadata msg))
              | None => msg
              end
      end
  end.

Inductive Outcome :=
| Returned (s : Subscriber) (w : http.ResponseWriter)
| BlockedOnPubChan (w : http.ResponseWriter)
| BlockedInRespond (s : Subscriber) (w : http.ResponseWriter)
| Panicked.

(** [handleMessage], run without interference: [id] is the pointer of the
    message, [ev] what has happened by the time [respond] selects, [pick]
    the case the runtime picks there. *)
Definition handleMessage (s : Subscriber) (id : nat) (r : Request)
    (ev : Events) (pick : SelectCase) (w : http.ResponseWriter) : Outcome :=
  match prepare r with
  | inl status => Returned s (http.WriteHeader w status)
  | inr _ =>
      match publish s id with
      | PublishErr _ => Returned s (http.WriteHeader w http.StatusServiceUnavailable)
      | PublishBlocked => BlockedOnPubChan w
      | PublishPanic => Panicked
      | PublishNil s' =>
          match respond ev pick w with
          | Some w' => Returned s' w'
          | None => BlockedInRespond s' w
          end
      end
  end.

(** *** The goroutines *)

(** Where a handler goroutine stands. *)
Inductive HandlerPC :=
| HEntry (r : Request)          (* handleMessage called *)
| HSend (msg : Message)         (* publish: state test passed, at the send *)
| HRespond (msg : Message)      (* respond: at the select *)
| HReturned.

Record Handler := mkHandler {
  h_pc : HandlerPC;
  h_w : http.ResponseWriter;
  h_ack : AckState;             (* the message's Acked()/Nacked() signals *)
  h_ctxDone : bool              (* r.Context().Done() is closed *)
}.

(** Where the [publisher] goroutine stands. *)
Inductive PublisherPC :=
| PubSelect                     (* at the select of the loop *)
| PubSend (msg : nat)           (* at [s.msgChan <- msg] *)
| PubReturned.

(** Where the call of the stop hook ([stop], run once by [Stop]) stands. *)
Inductive StopPC :=
| StopNotCalled
| StopCloseStopped              (* at [close(s.stopped)] *)
| StopWaitDone                  (* at [<-s.done] *)
| StopCloseMsgChan              (* at [close(s.msgChan)] *)
| StopReturned.

Record System := mkSystem {
  sub : Subscriber;
  pub : PublisherPC;
  stp : StopPC;
  handlers : list Handler;
  delivered : list nat;         (* what the consumer received from msgChan *)
  panicked : bool
}.

(** The moves of the scheduler and of the environment. *)
Inductive Label :=
| LRequest (r : Request)        (* the HTTP server calls the handler *)
| LEntry (i : nat)              (* handler i: up to the state test of publish *)
| LSend (i : nat)               (* handler i: s.pubChan <- msg *)
| LRespond (i : nat) (pick : SelectCase)
| LCancel (i : nat)             (* the context of request i is cancelled *)
| LPubRecv                      (* publisher: case msg := <-s.pubChan *)
| LPubStopped                   (* publisher: case <-s.stopped; close(s.done) *)
| LPubSend                      (* publisher: s.msgChan <- msg *)
| LClose                        (* Close(): Stop() enters the stop hook *)
| LStop                         (* one statement of stop() *)
| LConsume                      (* the subscriber's consumer receives *)
| LAck (i : nat)
| LNack (i : nat).

Definition with_sub (y : System) (s : Subscriber) : System :=
  mkSystem s (pub y) (stp y) (handlers y) (delivered y) (panicked y).
Definition with_pub (y : System) (s : Subscriber) (p : PublisherPC) : System :=
  mkSystem s p (stp y) (handlers y) (delivered y) (panicked y).
Definition with_stp (y : System) (s : Subscriber) (p : StopPC) : System :=
  mkSystem s (pub y) p (handlers y) (delivered y) (panicked y).
Definition with_handler (y : System) (s : Subscriber) (i : nat) (h : Handler)
  : System :=
  mkSystem s (pub y) (stp y) (<[i := h]> (handlers y)) (delivered y) (panicked y).
Definition panic (y : System) : System :=
  mkSystem (sub y) (pub y) (stp y) (handlers y) (delivered y) true.

Definition events_of (y : System) (h : Handler) : Events :=
  mkEvents (h_ack h) (h_ctxDone h) (stopped (sub y)).

(** One move; [None] when the move is not enabled (the goroutine is blocked
    or stands elsewhere). A panicked program makes no move. *)
Definition exec (l : Label) (y : System) : option System :=
  if panicked y then None else
  let s := sub y in
  match l with
  | LRequest r =>
      Some (mkSystem s (pub y) (stp y)
              (handlers y ++ [mkHandler (HEntry r) http.newResponseWriter Pending false])
              (delivered y) false)
  | LEntry i =>
      match handlers y !! i with
      | Some (mkHandler (HEntry r) w a c) =>
          match prepare r with
          | inl status =>
              Some (with_handler y s i (mkHandler HReturned (http.WriteHeader w status) a c))
          | inr msg =>
              match publish_check (state s) with
              | Some _ =>
                  Some (with_handler y s i
                          (mkHandler HReturned
                             (http.WriteHeader w http.StatusServiceUnavailable) a c))
              | None => Some (with_handler y s i (mkHandler (HSend msg) w a c))
              end
          end
      | _ => None
      end
  | LSend i =>
      match handlers y !! i with
      | Some (mkHandler (HSend msg) w a c) =>
          match send (pubChan s) i with
          | SendOk ch => Some (with_handler y (set_pubChan s ch) i (mkHandler (HRespond msg) w a c))
          | SendBlocks => None
          | SendPanic => Some (panic y)
          end
      | _ => None
      end
  | LRespond i pick =>
      match handlers y !! i with
      | Some (mkHandler (HRespond msg) w a c) =>
          match respond (events_of y (mkHandler (HRespond msg) w a c)) pick w with
          | Some w' => Some (with_handler y s i (mkHandler HReturned w' a c))
          | None => None
          end
      | _ => None
      end
  | LCancel i =>
      match handlers y !! i with
      | Some (mkHandler p w a _) => Some (with_handler y s i (mkHandler p w a true))
      | None => None
      end
  | LPubRecv =>
      match pub y with
      | PubSelect =>
          match recv (pubChan s) with
          | RecvOk m ch => Some (with_pub y (set_pubChan s ch) (PubSend m))
          | _ => None
          end
      | _ => None
      end
  | LPubStopped =>
      match pub y with
      | PubSelect =>
          if stopped s then
            if done s then Some (panic y)
            else Some (with_pub y (set_done s true) PubReturned)
          else None
      | _ => None
      end
  | LPubSend =>
      match pub y with
      | PubSend m =>
          match send (msgChan s) m with
          | SendOk ch => Some (with_pub y (set_msgChan s ch) PubSelect)
          | SendBlocks => None
          | SendPanic => Some (panic y)
          end
      | _ => None
      end
  | LClose =>
      match stp y, state s with
      | StopNotCalled, lifecycle.StateStarted =>
          Some (with_stp y (set_state s lifecycle.StateStopping) StopCloseStopped)
      | _, _ => None
      end
  | LStop =>
      match stp y with
      | StopCloseStopped =>
          if stopped s then Some (panic y)
          else Some (with_stp y (set_stopped s true) StopWaitDone)
      | StopWaitDone =>
          if done s then Some (with_stp y s StopCloseMsgChan) else None
      | StopCloseMsgChan =>
          match close (msgChan s) with
          | Some ch =>
              Some (with_stp y
                      (set_state (set_msgChan s ch) lifecycle.StateStopped)
                      StopReturned)
          | None => Some (panic y)
          end
      | _ => None
      end
  | LConsume =>
      match recv (msgChan s) with
      | RecvOk m ch =>
          Some (mkSystem (set_msgChan s ch) (pub y) (stp y) (handlers y)
                  (delivered y ++ [m]) false)
      | _ => None
      end
  | LAck i =>
      match handlers y !! i with
      | Some (mkHandler p w a c) =>
          if existsb (Nat.eqb i) (delivered y)
          then Some (with_handler y s i (mkHandler p w (Ack a) c))
          else None
      | None => None
      end
  | LNack i =>
      match handlers y !! i with
      | Some (mkHandler p w a c) =>
          if existsb (Nat.eqb i) (delivered y)
          then Some (with_handler y s i (mkHandler p w (Nack a) c))
          else None
      | None => None
      end
  end.

(** The program right after [New]: started, the publisher goroutine running,
    no request yet. *)
Definition init (s : Subscriber) : System :=
  mkSystem s PubSelect StopNotCalled [] [] false.

Definition step (y y' : System) : Prop := exists l, exec l y = Some y'.

(** Runs a schedule, move by move. *)
Fixpoint run (ls : list Label) (y : System) : option System :=
  match ls with
  | [] => Some y
  | l :: ls' => match exec l y with Some y' => run ls' y' | None => None end
  end.

(** Some goroutine stands at a send into [msgChan]. Only [publisher] has
    such a statement. *)
Definition sending_to_msgChan (y : System) : Prop :=
  exists m, pub y = PubSend m.

(** The handler wrote exactly one header, [status], and returned. *)
Definition responds_with (status : Z) (w : http.ResponseWriter) (o : Outcome)
  : Prop :=
  exists s, o = Returned s (http.WriteHeader w status).

(** The close protocol of [stop] and [publisher]: nothing has panicked;
    [done] is closed exactly when the publisher has returned; [stopped] is
    closed exactly when [stop] has passed its first statement; [stop] gets
    past [<-s.done] only with [done] closed; [msgChan] is closed exactly when
    [stop] has returned; [pubChan] is never closed. *)
Definition close_protocol (y : System) : Prop :=
  panicked y = false /\
  (done (sub y) = true <-> pub y = PubReturned) /\
  (stopped (sub y) = true <->
     stp y <> StopNotCalled /\ stp y <> StopCloseStopped) /\
  (stp y = StopCloseMsgChan \/ stp y = StopReturned -> done (sub y) = true) /\
  (closed (msgChan (sub y)) = true <-> stp y = StopReturned) /\
  closed (pubChan (sub y)) = false.

End Handler.

Arguments HEntry {Request} r.
Arguments HSend {Request} msg.
Arguments HRespond {Request} msg.
Arguments HReturned {Request}.
Arguments mkHandler {Request} _ _ _ _.
Arguments h_pc {Request} _.
Arguments h_w {Request} _.
Arguments h_ack {Request} _.
Arguments h_ctxDone {Request} _.
Arguments mkSystem {Request} _ _ _ _ _ _.
Arguments sub {Request} _.
Arguments pub {Request} _.
Arguments stp {Request} _.
Arguments handlers {Request} _.
Arguments delivered {Request} _.
Arguments panicked {Request} _.
Arguments LRequest {Request} r.
Arguments LEntry {Request} i.
Arguments LSend {Request} i.
Arguments LRespond {Request} i pick.
Arguments LCancel {Request} i.
Arguments LPubRecv {Request}.
Arguments LPubStopped {Request}.
Arguments LPubSend {Request}.
Arguments LClose {Request}.
Arguments LStop {Request}.
Arguments LConsume {Request}.
Arguments LAck {Request} i.
Arguments LNack {Request} i.
Arguments authenticate {Request} Verify VerifyRequest r.
Arguments prepare {Request} Verify VerifyRequest unmarshalMessage r.
Arguments handleMessage {Request} Verify VerifyRequest unmarshalMessage s id r ev pick w.
Arguments exec {Request} Verify VerifyRequest unmarshalMessage l y.
Arguments step {Request} Verify VerifyRequest unmarshalMessage y y'.
Arguments run {Request} Verify VerifyRequest unmarshalMessage ls y.
Arguments init {Request} s.
Arguments events_of {Request} y h.
Arguments sending_to_msgChan {Request} y.
Arguments close_protocol {Request} y.
End httpsubscriber.

(** A concrete environment for the subscriber, in the manner of its tests: a
    request says whether its bearer token is accepted, what the signature
    verifier answers, and its body ([None]: the body cannot be read). *)
Module subscriber_example.
Import message.

Record Request := mkRequest {
  token_ok : bool;
  signature : bool * option string * option string;
  body : option string
}.

Definition Verify (r : Request) : bool := token_ok r.
Definition VerifyRequest (r : Request) : bool * option string * option string :=
  signature r.
Definition unmarshalMessage (r : Request) : Message + string :=
  match body r with
  | Some b => inl (mkMessage "uuid" b ∅)
  | None => inr "unable to read the body"
  end.

(** A request with an accepted token, and one signed by an actor. *)
Definition with_token : Request := mkRequest true (false, None, None) (Some "payload").
Definition signed : Request :=
  mkRequest false (true, Some "https://alice.example/services/orb", None) (Some "payload").

Definition run := httpsubscriber.run Verify VerifyRequest unmarshalMessage.
Definition handleMessage :=
  httpsubscriber.handleMessage Verify VerifyRequest unmarshalMessage.

(** The state a schedule leads to (the start state if it cannot be run). *)
Definition after (ls : list (httpsubscriber.Label Request))
    (s : httpsubscriber.Subscriber) : httpsubscriber.System Request :=
  match run ls (httpsubscriber.init s) with
  | Some y => y
  | None => httpsubscriber.init s
  end.

(** The subscriber [New] makes for the inbox, with the default buffer size,
    and one with room for a single message. *)
Definition inbox : httpsubscriber.Config :=
  httpsubscriber.mkConfig "/services/orb/inbox" 0.
Definition started : httpsubscriber.Subscriber :=
  httpsubscriber.mkSubscriber (httpsubscriber.mkConfig "/services/orb/inbox" 100)
    lifecycle.StateStarted (gochan.make 100) (gochan.make 100) false false.
Definition narrow : httpsubscriber.Config :=
  httpsubscriber.mkConfig "/services/orb/inbox" 1.
Definition started_narrow : httpsubscriber.Subscriber :=
  httpsubscriber.mkSubscriber narrow
    lifecycle.StateStarted (gochan.make 1) (gochan.make 1) false false.

(** A request is queued, shovelled to [msgChan], consumed and acknowledged. *)
Definition deliver_and_ack : list (httpsubscriber.Label Request) :=
  [httpsubscriber.LRequest with_token;
   httpsubscriber.LEntry 0; httpsubscriber.LSend 0;
   httpsubscriber.LPubRecv; httpsubscriber.LPubSend;
   httpsubscriber.LConsume; httpsubscriber.LAck 0;
   httpsubscriber.LRespond 0 httpsubscriber.CaseAcked].

(** A request is queued and shovelled, then the service is closed. *)
Definition deliver_and_close : list (httpsubscriber.Label Request) :=
  [httpsubscriber.LRequest with_token;
   httpsubscriber.LEntry 0; httpsubscriber.LSend 0;
   httpsubscriber.LPubRecv; httpsubscriber.LPubSend;
   httpsubscriber.LClose; httpsubscriber.LStop;
   httpsubscriber.LPubStopped; httpsubscriber.LStop; httpsubscriber.LStop].

(** A request is queued and stays in [pubChan]. *)
Definition queue_one : list (httpsubscriber.Label Request) :=
  [httpsubscriber.LRequest with_token;
   httpsubscriber.LEntry 0; httpsubscriber.LSend 0].

Definition no_event : httpsubscriber.Events :=
  httpsubscriber.mkEvents Pending false false.

End subscriber_example.

(** ** Strings, as the Go code uses them *)
Module strings.

(** [strings.HasPrefix]. *)
Fixpoint HasPrefix (s p : string) {struct p} : bool :=
  match p, s with
  | EmptyString, _ => true
  | String b p', String a s' => Ascii.eqb a b && HasPrefix s' p'
  | String _ _, EmptyString => false
  end.

(** [strings.Contains]: [sub] starts at some position of [s]. *)
Fixpoint Contains (s sub : string) : bool :=
  HasPrefix s sub ||
  match s with
  | EmptyString => false
  | String _ s' => Contains s' sub
  end.

Definition is_space (a : ascii) : bool :=
  Ascii.eqb a " " || Ascii.eqb a "009" || Ascii.eqb a "010" || Ascii.eqb a "013".

(** Cuts [s] at every character that satisfies [sep]; the pieces may be
    empty. *)
Fixpoint split_by (sep : ascii -> bool) (s : string) : list string :=
  match s with
  | EmptyString => [EmptyString]
  | String a s' =>
      if sep a then EmptyString :: split_by sep s'
      else match split_by sep s' with
           | piece :: rest => String a piece :: rest
           | [] => [String a EmptyString]
           end
  end.

Definition nonempty (s : string) : bool :=
  match s with EmptyString => false | _ => true end.

(** [strings.Fields]: the whitespace-separated tokens of [s]. *)
Definition Fields (s : string) : list string :=
  List.filter nonempty (split_by is_space s).

Definition digit (a : ascii) : option Z :=
  let n := Z.of_nat (nat_of_ascii a) in
  if (48 <=? n) && (n <=? 57) then Some (n - 48) else None.

Fixpoint digits (s : string) (acc : Z) : option Z :=
  match s with
  | EmptyString => Some acc
  | String a s' =>
      match digit a with
      | Some d => digits s' (10 * acc + d)
      | None => None
      end
  end.

(** A decimal integer with an optional minus sign. *)
Definition Atoi (s : string) : option Z :=
  match s with
  | EmptyString => None
  | String a s' =>
      if Ascii.eqb a "-" then
        if nonempty s' then option_map Z.opp (digits s' 0) else None
      else digits s 0
  end.

(** Decimal rendering of a natural number ([%d]). *)
Definition Itoa (n : nat) : string := NilEmpty.string_of_uint (Nat.to_uint n).
End strings.

(** ** Package config: the policy language *)
Module config.
Local Open Scope nat_scope.

(** Modelled from the spec: package [config] ([config.Parse] and the policy
    type; the package's source file is missing). A policy is a tree of role
    leaves [MinPercent(p, role)] and [OutOf(n, role)] under binary [AND] and
    [OR], with an optional [LogRequired] flag. *)
Inductive Role := RoleBatch | RoleSystem.

Inductive Expr :=
| MinPercent (p : nat) (r : Role)
| OutOf (n : nat) (r : Role)
| AND (a b : Expr)
| OR (a b : Expr).

Record Policy := mkPolicy {
  Rule : Expr;
  LogRequired : bool
}.

Definition Role_eqb (a b : Role) : bool :=
  match a, b with
  | RoleBatch, RoleBatch | RoleSystem, RoleSystem => true
  | _, _ => false
  end.

(** Modelled from the spec: the default policy, 100% of the batch witnesses
    and 100% of the system witnesses, without [LogRequired]. *)
Definition defaultRule : Expr :=
  AND (MinPercent 100 RoleBatch) (MinPercent 100 RoleSystem).

Inductive ParseError :=
| RuleNotSupported (token : string)
| InvalidRule (token : string)
| InvalidExpression.

(** The text of an error ([err.Error()]). *)
Definition Error (e : ParseError) : string :=
  match e with
  | RuleNotSupported token => "rule not supported: " ++ token
  | InvalidRule token => "invalid rule: " ++ token
  | InvalidExpression => "invalid policy expression"
  end%string.

Inductive Token :=
| TTerm (e : Expr)
| TAnd
| TOr
| TLogRequired.

(** The operator of a token: the text before its first parenthesis. *)
Fixpoint operator (token : string) : string :=
  match token with
  | EmptyString => EmptyString
  | String a rest => if Ascii.eqb a "(" then EmptyString else String a (operator rest)
  end.

(** The text after the first parenthesis. *)
Fixpoint arguments (token : string) : option string :=
  match token with
  | EmptyString => None
  | String a rest => if Ascii.eqb a "(" then Some rest else arguments rest
  end.

Definition parseRole (s : string) : option Role :=
  if (s =? "batch")%string then Some RoleBatch
  else if (s =? "system")%string then Some RoleSystem
  else None.

(** The two arguments of a term, [INT "," ROLE ")"]. *)
Definition parseArgs (token : string) : option (Z * Role) :=
  match arguments token with
  | None => None
  | Some rest =>
      match strings.split_by (Ascii.eqb ",") rest with
      | [int; tail] =>
          match strings.split_by (Ascii.eqb ")") tail with
          | [role; EmptyString] =>
              match strings.Atoi int, parseRole role with
              | Some n, Some r => Some (n, r)
              | _, _ => None
              end
          | _ => None
          end
      | _ => None
      end
  end.


(** Modelled from the spec: one token. An unknown operator fails with
    [rule not supported: <token>]; a percentage outside [0,100] and a negative
    count fail with a parse error. *)
Definition parseToken (token : string) : ParseError + Token :=
  if (token =? "AND")%string then inr TAnd
  else if (token =? "OR")%string then inr TOr
  else if (token =? "LogRequired")%string then inr TLogRequired
  else if (operator token =? "MinPercent")%string then
    match parseArgs token with
    | Some (p, r) =>
        if ((0 <=? p) && (p <=? 100))%Z then inr (TTerm (MinPercent (Z.to_nat p) r))
        else inl (InvalidRule token)
    | None => inl (InvalidRule token)
    end
  else if (operator token =? "OutOf")%string then
    match parseArgs token with
    | Some (n, r) =>
        if (0 <=? n)%Z then inr (TTerm (OutOf (Z.to_nat n) r))
        else inl (InvalidRule token)
    | None => inl (InvalidRule token)
    end
  else inl (RuleNotSupported token).

(** The tokens, left to right; the first one that fails decides the error. *)
Fixpoint parseTokens (tokens : list string) : ParseError + list Token :=
  match tokens with
  | [] => inr []
  | token :: rest =>
      match parseToken token with
      | inl e => inl e
      | inr t =>
          match parseTokens rest with
          | inl e => inl e
          | inr ts => inr (t :: ts)
          end
      end
  end.

Definition join (ors : option Expr) (ands : Expr) : Expr :=
  match ors with
  | None => ands
  | Some o => OR o ands
  end.

(** [Expr := Term (("AND" | "OR") Term)*], left-associative, [AND] binding
    tighter than [OR]: [ands] is the conjunction being read, [ors] the
    disjunction of the conjunctions read before it. *)
Fixpoint parseExpr (ors : option Expr) (ands : Expr) (ts : list Token)
  : option Expr :=
  match ts with
  | [] => Some (join ors ands)
  | TAnd :: TTerm t :: rest => parseExpr ors (AND ands t) rest
  | TOr :: TTerm t :: rest => parseExpr (Some (join ors ands)) t rest
  | _ => None
  end.

(** A trailing [LogRequired]. *)
Definition stripLogRequired (ts : list Token) : list Token * bool :=
  match rev ts with
  | TLogRequired :: front => (rev front, true)
  | _ => (ts, false)
  end.

(** Modelled from the spec: [config.Parse]. [Policy := Expr ("LogRequired")?];
    the empty input, and [LogRequired] alone (as the tests of package policy
    use it), take the default rule. *)
Definition Parse (policy : string) : ParseError + Policy :=
  match parseTokens (strings.Fields policy) with
  | inl e => inl e
  | inr ts =>
      let (body, logRequired) := stripLogRequired ts in
      match body with
      | [] => inr (mkPolicy defaultRule logRequired)
      | TTerm t :: rest =>
          match parseExpr None t rest with
          | Some e => inr (mkPolicy e logRequired)
          | None => inl InvalidExpression
          end
      | _ => inl InvalidExpression
      end
  end.
End config.

(** ** Package resthandler: the policy configurator *)
Module resthandler.
Definition endpoint : string := "/policy".
Definition badRequestResponse : string := "Bad Request.".
Definition internalServerErrorResponse : string := "Internal Server Error.".

(** [writeResponse]: the status, then the body when there is one (a failed
    [Write] is only logged). *)
Definition writeResponse (w : http.ResponseWriter) (status : Z) (body : string)
  : http.ResponseWriter :=
  let w' := http.WriteHeader w status in
  if (0 <? String.length body)%nat then http.Write w' body else w'.

Section PolicyConfigurator.
(** What [handle] calls: [Put] of the configuration store (an interface),
    [config.Parse], and the key [policy.WitnessPolicyKey]. *)
Variable Store : Type.
Variable Put : Store -> string -> string -> Store * option string.
Variables ParseError Policy : Type.
Variable Parse : string -> ParseError + Policy.
Variable WitnessPolicyKey : string.

(** What a call of [handle] leaves behind: the store, the [Put] calls it
    made (key, value) and the response. *)
Record Handled := mkHandled {
  configStore : Store;
  puts : list (string * string);
  response : http.ResponseWriter
}.

(** [handle]. [body] is what [ioutil.ReadAll(req.Body)] returns: the bytes
    and an optional error. *)
Definition handle (store : Store) (w : http.ResponseWriter)
    (body : string * option string) : Handled :=
  match body with
  | (_, Some _) =>
      mkHandled store [] (writeResponse w http.StatusBadRequest badRequestResponse)
  | (policyBytes, None) =>
      match Parse policyBytes with
      | inl _ =>
          mkHandled store []
            (writeResponse w http.StatusBadRequest badRequestResponse)
      | inr _ =>
          match Put store WitnessPolicyKey policyBytes with
          | (store', Some _) =>
              mkHandled store' [(WitnessPolicyKey, policyBytes)]
                (writeResponse w http.StatusInternalServerError
                   internalServerErrorResponse)
          | (store', None) =>
              mkHandled store' [(WitnessPolicyKey, policyBytes)]
                (writeResponse w http.StatusOK EmptyString)
          end
      end
  end.
End PolicyConfigurator.

Arguments mkHandled {Store} _ _ _.
Arguments configStore {Store} _.
Arguments puts {Store} _.
Arguments response {Store} _.
Arguments handle {Store} Put {ParseError Policy} Parse WitnessPolicyKey store w body.
End resthandler.

(** A configuration store kept in a map, and one whose [Put] always fails. *)
Module resthandler_example.
Definition WitnessPolicyKey : string := "witness-policy".

Definition Put (store : gmap string string) (key value : string)
  : gmap string string * option string :=
  (<[key := value]> store, None).

Definition failingPut (store : gmap string string) (key value : string)
  : gmap string string * option string :=
  (store, Some "injected put error").

Definition handle :=
  resthandler.handle Put config.Parse WitnessPolicyKey.
Definition handle_failing :=
  resthandler.handle failingPut config.Parse WitnessPolicyKey.
End resthandler_example.

(** ** Package proof: witnesses and their proofs *)
Module proof.
(** Modelled from the spec: package [proof] (its source file is missing; the
    tests of package policy build these values). A witness has a type, a URI
    and a log flag; a witness proof pairs a witness with the proof bytes,
    and the proof is present when the bytes are not empty. *)
Inductive WitnessType := WitnessTypeBatch | WitnessTypeSystem.

Record Witness := mkWitness {
  Type_ : WitnessType;
  URI : string;
  HasLog : bool
}.

Record WitnessProof := mkWitnessProof {
  Witness_ : Witness;
  Proof_ : string
}.


End proof.

(** ** Package policy: the witness policy *)
Module policy.
Import config proof.
Local Open Scope nat_scope.

Definition WitnessPolicyKey : string := "witness-policy".

(** *** The policy cache *)

(** A Go [interface{}] value as the cache returns it: nil, a string, or a
    value of another type (with the name [%T] prints for it). *)
Inductive Value :=
| VNil
| VString (s : string)
| VOther (typeName : string).

(** [mockCache] of the tests, with its [Get]. *)
Record mockCache := mkMockCache {
  GetErr : option string;
  SetErr : option string;
  GetValue : Value
}.

Definition mockCache_Get (mc : mockCache) (key : string) : Value * option string :=
  match GetErr mc with
  | Some e => (VNil, Some e)
  | None => (GetValue mc, None)
  end.

(** Modelled from the spec: [getWitnessPolicyConfig] (the source file of
    package policy is missing; its tests give the messages). [get] is the
    cache's [Get] applied to the policy key. *)
Definition getWitnessPolicyConfig (get : Value * option string)
  : string + Policy :=
  match get with
  | (_, Some err) =>
      inl ("failed to retrieve policy from policy cache: " ++ err)%string
  | (VNil, None) =>
      inl "failed to retrieve policy from policy cache (nil value)"
  | (VString s, None) =>
      match Parse s with
      | inl e => inl (Error e)
      | inr p => inr p
      end
  | (VOther typeName, None) =>
      inl ("unexpected interface '" ++ typeName
           ++ "' for witness policy value in policy cache")%string
  end.

(** *** Evaluation *)

Definition role (w : Witness) : Role :=
  match Type_ w with
  | WitnessTypeBatch => RoleBatch
  | WitnessTypeSystem => RoleSystem
  end.

(** A witness counts under [LogRequired] only if it has a log. *)
Definition checkLog (logRequired : bool) (w : Witness) : bool :=
  negb logRequired || HasLog w.

Definition present (p : WitnessProof) : bool := strings.nonempty (Proof_ p).

(** The witnesses of a role: the partition of the input by role. *)
Definition witnessesOf (r : Role) (ps : list WitnessProof) : list WitnessProof :=
  List.filter (fun p => Role_eqb (role (Witness_ p)) r) ps.

(** The proofs that count for a role: present, and from a witness that
    passes the log test. *)
Definition collected (logRequired : bool) (r : Role) (ps : list WitnessProof)
  : nat :=
  length (List.filter (fun p => checkLog logRequired (Witness_ p) && present p)
            (witnessesOf r ps)).

Definition total (r : Role) (ps : list WitnessProof) : nat :=
  length (witnessesOf r ps).

(** Modelled from the spec: the evaluator of [WitnessPolicy.Evaluate] (the
    source file of package policy is missing). [OutOf(n, role)] needs [n]
    counted proofs of the role; [MinPercent(p, role)] holds when the role has
    no witnesses, and otherwise needs the counted proofs to be [p] percent of
    the role's witnesses. The percentage is taken of all the role's
    witnesses, also those without a log: the tests [policy(50% batch and 50%
    system) fails with log required] and [default policy fails with log
    required] ask for [false] where a role has only log-less witnesses. *)
Fixpoint evaluate (logRequired : bool) (ps : list WitnessProof) (e : Expr)
  : bool :=
  match e with
  | MinPercent p r =>
      (total r ps =? 0) || (p * total r ps <=? collected logRequired r ps * 100)
  | OutOf n r => n <=? collected logRequired r ps
  | AND a b => evaluate logRequired ps a && evaluate logRequired ps b
  | OR a b => evaluate logRequired ps a || evaluate logRequired ps b
  end.

(** The [MinPercent] leaf as the specification words it: [W] is the role's
    witnesses after the [LogRequired] filter, and the leaf holds iff [W] is
    empty or the present proofs in [W] are [p] percent of [W]. *)
Definition minPercent_as_specified (logRequired : bool) (p : nat) (r : Role)
    (ps : list WitnessProof) : bool :=
  let W := List.filter (fun q => checkLog logRequired (Witness_ q))
             (witnessesOf r ps) in
  (length W =? 0) || (p * length W <=? length (List.filter present W) * 100).

(** [Evaluate]: the policy comes from the cache; a retrieval error gives
    [false] and the error. *)
Definition Evaluate (get : Value * option string) (ps : list WitnessProof)
  : bool * option string :=
  match getWitnessPolicyConfig get with
  | inl err => (false, Some err)
  | inr p => (evaluate (LogRequired p) ps (Rule p), None)
  end.

(** *** Selection *)

(** Identity of a witness in the exclusion list: URI and role. *)
Definition sameWitness (a b : Witness) : bool :=
  (URI a =? URI b)%string && Role_eqb (role a) (role b).

Definition excluded (exclude : list Witness) (w : Witness) : bool :=
  existsb (sameWitness w) exclude.

(** The witnesses of a role that may be selected. *)
Definition eligible (logRequired : bool) (exclude : list Witness) (r : Role)
    (ws : list Witness) : list Witness :=
  List.filter (fun w => Role_eqb (role w) r && checkLog logRequired w
                        && negb (excluded exclude w)) ws.

(** All the witnesses of a role, excluded and log-less ones too. *)
Definition totalWitnesses (r : Role) (ws : list Witness) : nat :=
  length (List.filter (fun w => Role_eqb (role w) r) ws).

(** [ceil(p * n / 100)]. *)
Definition ceilPercent (p n : nat) : nat := (p * n + 99) / 100.

Inductive SelectError := UnableToSelect (n m : nat).

Definition SelectError_Error (e : SelectError) : string :=
  match e with
  | UnableToSelect n m =>
      ("unable to select " ++ strings.Itoa n
       ++ " witnesses from witness array of length " ++ strings.Itoa m)%string
  end.

(** How many witnesses to pick: batch, system. *)
Definition Plan : Type := nat * nat.

Definition planSize (p : Plan) : nat := fst p + snd p.

Definition leafPlan (r : Role) (n : nat) : Plan :=
  match r with
  | RoleBatch => (n, 0)
  | RoleSystem => (0, n)
  end.


Definition need (pool : Role -> nat) (r : Role) (n : nat) : SelectError + Plan :=
  if pool r <? n then inl (UnableToSelect n (pool r)) else inr (leafPlan r n).

Definition fits (pool : Role -> nat) (p : Plan) : SelectError + Plan :=
  if pool RoleBatch <? fst p then inl (UnableToSelect (fst p) (pool RoleBatch))
  else if pool RoleSystem <? snd p
       then inl (UnableToSelect (snd p) (pool RoleSystem))
       else inr p.

(** The cheaper of two alternatives. An alternative that asks for no witness
    at all is passed over: the test [policy with OR (system witnesses
    selected)] expects the one system witness although the batch branch
    asks for none. *)
Definition cheaper (pa pb : Plan) : Plan :=
  if planSize pa =? 0 then pb
  else if planSize pb =? 0 then pa
  else if planSize pb <? planSize pa then pb else pa.

(** Modelled from the spec: step 3 of [Select] (the source file of package
    policy is missing). A role leaf requires [n], or [ceil(p * |W| / 100)]
    where [W] is all the role's witnesses (the tests with an excluded witness
    expect the count taken before the exclusion); [AND] sums the requirements
    per role; [OR] picks the cheaper alternative that is satisfiable. [pool]
    is the number of eligible witnesses of a role. *)
Fixpoint plan (pool total : Role -> nat) (e : Expr) : SelectError + Plan :=
  match e with
  | MinPercent p r => need pool r (ceilPercent p (total r))
  | OutOf n r => need pool r n
  | AND a b =>
      match plan pool total a with
      | inl err => inl err
      | inr pa =>
          match plan pool total b with
          | inl err => inl err
          | inr pb => fits pool (fst pa + fst pb, snd pa + snd pb)
          end
      end
  | OR a b =>
      match plan pool total a, plan pool total b with
      | inr pa, inr pb => inr (cheaper pa pb)
      | inr pa, inl _ => inr pa
      | inl _, inr pb => inr pb
      | inl err, inl _ => inl err
      end
  end.

(** Modelled from the spec: [WitnessPolicy.Select] for a policy already
    retrieved: remove the exclusions, keep the witnesses with a log under
    [LogRequired], compute the counts, and pick that many witnesses per role
    in input order, batch first. *)
Definition selectWitnesses (p : Policy) (ws exclude : list Witness)
  : SelectError + list Witness :=
  let pool r := eligible (LogRequired p) exclude r ws in
  match plan (fun r => length (pool r)) (fun r => totalWitnesses r ws) (Rule p) with
  | inl err => inl err
  | inr (nb, ns) => inr (firstn nb (pool RoleBatch) ++ firstn ns (pool RoleSystem))%list
  end.

(** [Select]: the policy comes from the cache. *)
Definition Select (get : Value * option string) (ws exclude : list Witness)
  : string + list Witness :=
  match getWitnessPolicyConfig get with
  | inl err => inl err
  | inr p =>
      match selectWitnesses p ws exclude with
      | inl err => inl (SelectError_Error err)
      | inr selected => inr selected
      end
  end.






(** The cache after [New(policyStore, expiry)] when the store returns
    [policy]. *)
Definition cached (policy : string) : Value * option string :=
  mockCache_Get (mkMockCache None None (VString policy)) WitnessPolicyKey.
End policy.

(** The witnesses of the tests of package policy. *)
Module policy_test.
Import proof.

Definition batchWitnessURL : string := "https://batch.com/service".
Definition systemWitnessURL : string := "https://system.com/service".
Definition batchWitness2URL : string := "https://other.batch.com/service".
Definition systemWitness2URL : string := "https://other.system.com/service".
Definition systemWitness3URL : string := "https://third.system.com/service".

Definition batch (uri : string) (hasLog : bool) (proof : string) : WitnessProof :=
  mkWitnessProof (mkWitness WitnessTypeBatch uri hasLog) proof.
Definition system (uri : string) (hasLog : bool) (proof : string) : WitnessProof :=
  mkWitnessProof (mkWitness WitnessTypeSystem uri hasLog) proof.

Definition B1 := mkWitness WitnessTypeBatch batchWitnessURL true.
Definition B2 := mkWitness WitnessTypeBatch batchWitness2URL false.
Definition S1 := mkWitness WitnessTypeSystem systemWitnessURL true.
Definition S2 := mkWitness WitnessTypeSystem systemWitness2URL true.
Definition S3 := mkWitness WitnessTypeSystem systemWitness3URL true.
Definition b1 := mkWitness WitnessTypeBatch batchWitnessURL false.
Definition b2 := mkWitness WitnessTypeBatch batchWitness2URL false.
Definition s1 := mkWitness WitnessTypeSystem systemWitnessURL false.

Definition witnessBytes : string := "proof".

(** [wp.Evaluate] and [wp.Select] with the policy store returning [policy]. *)
Definition Evaluate (policy : string) (ps : list WitnessProof) : bool * option string :=
  policy.Evaluate (policy.cached policy) ps.
Definition Select (policy : string) (ws exclude : list Witness)
  : string + list string :=
  match policy.Select (policy.cached policy) ws exclude with
  | inl err => inl err
  | inr selected => inr (map URI selected)
  end.

(** The five witnesses of the [Select] tests: three system witnesses with a
    log, a batch witness with a log and one without. *)
Definition five : list Witness := [S1; S2; S3; B1; B2].

Definition halfAndHalfLog : string :=
  "MinPercent(50,batch) AND MinPercent(50,system) LogRequired".
Definition halfOrHalfLog : string :=
  "MinPercent(50,system) OR MinPercent(50,batch) LogRequired".
End policy_test.


(** ** The path of a message through the subscriber *)
Module shovel.
Import gochan httpsubscriber.

(** The message the publisher holds between its receive and its send. *)
Definition inflight (p : PublisherPC) : list nat :=
  match p with
  | PubSend m => [m]
  | _ => []
  end.

(** Every message that entered [pubChan], oldest first: what the consumer
    has received, what waits in [msgChan], what the publisher holds, and
    what waits in [pubChan]. *)
Definition pipeline {Request} (y : System Request) : list nat :=
  (delivered y ++ buf (msgChan (sub y)) ++ inflight (pub y)
   ++ buf (pubChan (sub y)))%list.

(** The handlers whose send into [pubChan] a schedule completes, in order. *)
Definition sends {Request} (ls : list (Label Request)) : list nat :=
  flat_map (fun l => match l with LSend i => [i] | _ => [] end) ls.

(** The statuses [handleMessage] can write. *)
Definition handler_statuses : list Z := [200; 400; 401; 500; 503].

(** A handler has written no header while it runs and exactly one, of
    [handler_statuses], once it has returned. *)
Definition one_header {Request} (h : Handler Request) : Prop :=
  match h_pc h with
  | HReturned =>
      exists status, http.headers (h_w h) = [status] /\ In status handler_statuses
  | _ => http.headers (h_w h) = []
  end.

Section Moves.
Context {Request : Type}.
Variable Verify : Request -> bool.
Variable VerifyRequest : Request -> bool * option string * option string.
Variable unmarshalMessage : Request -> message.Message + string.

(** What one move of the program [y] may do to handler [i]. *)
Inductive hmove (y : System Request)
  : Label Request -> nat -> Handler Request -> Handler Request -> Prop :=
| hmove_rejected i r w a c status :
    prepare Verify VerifyRequest unmarshalMessage r = inl status ->
    hmove y (LEntry i) i (mkHandler (HEntry r) w a c)
      (mkHandler HReturned (http.WriteHeader w status) a c)
| hmove_not_started i r w a c msg :
    prepare Verify VerifyRequest unmarshalMessage r = inr msg ->
    state (sub y) <> lifecycle.StateStarted ->
    hmove y (LEntry i) i (mkHandler (HEntry r) w a c)
      (mkHandler HReturned (http.WriteHeader w http.StatusServiceUnavailable) a c)
| hmove_checked i r w a c msg :
    prepare Verify VerifyRequest unmarshalMessage r = inr msg ->
    state (sub y) = lifecycle.StateStarted ->
    hmove y (LEntry i) i (mkHandler (HEntry r) w a c) (mkHandler (HSend msg) w a c)
| hmove_sent i msg w a c :
    hmove y (LSend i) i (mkHandler (HSend msg) w a c)
      (mkHandler (HRespond msg) w a c)
| hmove_responded i pick msg w a c :
    ready (mkEvents a c (stopped (sub y))) pick = true ->
    hmove y (LRespond i pick) i (mkHandler (HRespond msg) w a c)
      (mkHandler HReturned (http.WriteHeader w (respond_status pick)) a c)
| hmove_cancelled i p w a c :
    hmove y (LCancel i) i (mkHandler p w a c) (mkHandler p w a true)
| hmove_acked i p w a c :
    In i (delivered y) ->
    hmove y (LAck i) i (mkHandler p w a c) (mkHandler p w (message.Ack a) c)
| hmove_nacked i p w a c :
    In i (delivered y) ->
    hmove y (LNack i) i (mkHandler p w a c) (mkHandler p w (message.Nack a) c).
End Moves.

(** A handler's message has signalled only after the consumer received it,
    and a handler has written 200 only for an acknowledged message. *)
Definition acknowledged_only_if_delivered {Request} (y : System Request) : Prop :=
  forall i h, handlers y !! i = Some h ->
    (h_ack h <> message.Pending -> In i (delivered y)) /\
    (In 200 (http.headers (h_w h)) -> h_ack h = message.Acked).

(** A message is in the pipeline only once its handler has passed its
    send. *)
Definition sent_once {Request} (y : System Request) : Prop :=
  List.NoDup (pipeline y) /\
  forall i, In i (pipeline y) ->
    exists h, handlers y !! i = Some h /\
      ((exists msg, h_pc h = HRespond msg) \/ h_pc h = HReturned).
End shovel.

(** ** Schedules of the subscriber with two requests *)
Module shovel_example.
Import httpsubscriber subscriber_example.

(** Two requests arrive; the second one's handler sends first. Its message
    is shovelled, consumed and acknowledged, and it answers. *)
Definition overtaking : list (Label Request) :=
  [LRequest with_token; LRequest signed;
   LEntry 1; LEntry 0; LSend 1; LSend 0;
   LPubRecv; LPubSend; LConsume; LAck 1; LRespond 1 CaseAcked].

(** With room for one message: the first handler fills [pubChan], the second
    has passed the state check of [publish] when the service is closed and
    the publisher returns. *)
Definition closed_under_sender : list (Label Request) :=
  [LRequest with_token; LRequest with_token;
   LEntry 0; LEntry 1; LSend 0;
   LClose; LStop; LPubStopped].

(** [stop] goes on to its end and the second request is cancelled. *)
Definition stop_ends : list (Label Request) :=
  [LStop; LStop; LCancel 1].

(** A request without token whose signature check fails with an error, one
    whose signature is not valid, and one with a token and no readable
    body. *)
Definition check_fails : Request :=
  mkRequest false (false, None, Some "key not found") (Some "payload").
Definition forged : Request :=
  mkRequest false (false, None, None) (Some "payload").
Definition unreadable : Request :=
  mkRequest true (false, None, None) None.
End shovel_example.

(** ** Package memstore: the in-memory ActivityPub store *)
Module memstore.

(** What a Go call comes to: it returns, or it panics. *)
Inductive Go (A : Type) :=
| Return (a : A)
| Panics (reason : string).
Arguments Return {A} a.
Arguments Panics {A} reason.

Definition divide_by_zero : string := "runtime error: integer divide by zero".
Definition nil_dereference : string :=
  "runtime error: invalid memory address or nil pointer dereference".
Definition slice_out_of_range : string :=
  "runtime error: slice bounds out of range".

(** Go's [int], 64 bits wide: the result of an operation is cut to the
    range from [-2^63] to [2^63 - 1]. *)
Definition int (z : Z) : Z := (z + 2 ^ 63) mod 2 ^ 64 - 2 ^ 63.

(** The errors of the package: [spi.ErrNotFound] and those made with
    [fmt.Errorf]. *)
Inductive error :=
| ErrNotFound
| Errorf (msg : string).

(** [spi.SortOrder] with its two constants. *)
Inductive SortOrder := SortAscending | SortDescending.

(** [spi.QueryOptions], as [storeutil.GetQueryOptions] makes it of the
    options of a call. *)
Record QueryOptions := mkQueryOptions {
  PageNumber : Z;
  PageSize : Z;
  SortOrder_ : SortOrder
}.

(** [spi.ReferenceType]: a string; the eleven constants for which [New]
    makes a reference store, and [OtherType name] for a string [name] that
    is none of the eleven. *)
Inductive ReferenceType :=
| Inbox | Outbox | PublicOutbox | Follower | Following | Witness | Witnessing
| Like | Liked | Share | AnchorLinkset
| OtherType (name : string).

Definition ReferenceType_code (t : ReferenceType) : nat + string :=
  match t with
  | Inbox => inl 0%nat | Outbox => inl 1%nat | PublicOutbox => inl 2%nat
  | Follower => inl 3%nat | Following => inl 4%nat | Witness => inl 5%nat
  | Witnessing => inl 6%nat | Like => inl 7%nat | Liked => inl 8%nat
  | Share => inl 9%nat | AnchorLinkset => inl 10%nat
  | OtherType name => inr name
  end.

Definition ReferenceType_of_code (c : nat + string) : ReferenceType :=
  match c with
  | inl 0%nat => Inbox | inl 1%nat => Outbox | inl 2%nat => PublicOutbox
  | inl 3%nat => Follower | inl 4%nat => Following | inl 5%nat => Witness
  | inl 6%nat => Witnessing | inl 7%nat => Like | inl 8%nat => Liked
  | inl 9%nat => Share | inl _ => AnchorLinkset
  | inr name => OtherType name
  end.

#[export] Instance ReferenceType_eq_dec : EqDecision ReferenceType.
Proof. solve_decision. Defined.

#[export] Program Instance ReferenceType_countable : Countable ReferenceType :=
  inj_countable' ReferenceType_code ReferenceType_of_code _.
Next Obligation. now intros []. Qed.

(** [spi.Criteria], as far as the store reads it. An IRI is the string of a
    [*url.URL]; [None] is the nil pointer. *)
Record Criteria := mkCriteria {
  Types : list string;
  ObjectIRI : option string;
  ReferenceIRI : option string;
  ActivityIRIs : list string
}.

(** [containsIRI]. *)
Fixpoint containsIRI (iris : list string) (id : string) : bool :=
  match iris with
  | [] => false
  | iri :: rest => if (iri =? id)%string then true else containsIRI rest id
  end.

(** [getFirstPageNum]: the division panics when [pageSize] is zero. *)
Definition getFirstPageNum (totalItems pageSize : Z) : Go Z :=
  if pageSize =? 0 then Panics divide_by_zero
  else if Z.rem totalItems pageSize >? 0
       then Return (int (Z.quot totalItems pageSize))
       else Return (int (int (Z.quot totalItems pageSize) - 1)).

(** [startIndex]. *)
Definition startIndex (totalItems : Z) (options : QueryOptions) : Go Z :=
  if PageNumber options <? 0 then Return 0
  else match SortOrder_ options with
       | SortAscending => Return (int (PageNumber options * PageSize options))
       | SortDescending =>
           match getFirstPageNum totalItems (PageSize options) with
           | Panics reason => Panics reason
           | Return first =>
               Return (int (int (first - PageNumber options) * PageSize options))
           end
       end.

(** [getStartIndex]. *)
Definition getStartIndex (totalItems : Z) (options : QueryOptions) : Go Z :=
  if PageSize options <=? 0 then Return 0
  else match startIndex totalItems options with
       | Panics reason => Panics reason
       | Return startIdx =>
           if (startIdx <? 0) || (startIdx >=? totalItems) then Return (-1)
           else Return startIdx
       end.

Section Results.
(** [reverseSort] calls [sort.SliceStable] with a [less] that compares the
    two indices it is given, not the elements: what comes out is for the
    sort package to say. It rearranges the slice it is given. *)
Variable reverseSort : forall A : Type, list A -> list A.

(** What both [filter] methods do with the results of their [apply]: sort
    them when the order is descending, find the start index, and return the
    results from there on together with their number. Slicing panics when
    the index is out of range. *)
Definition sorted {A : Type} (options : QueryOptions) (results : list A) : list A :=
  match SortOrder_ options with
  | SortDescending => reverseSort A results
  | SortAscending => results
  end.

Definition from_start_index {A : Type} (results : list A) (options : QueryOptions)
  : Go (list A * nat) :=
  let results := sorted options results in
  match getStartIndex (Z.of_nat (length results)) options with
  | Panics reason => Panics reason
  | Return startIdx =>
      if startIdx =? -1 then Return ([], length results)
      else if (0 <=? startIdx) && (startIdx <=? Z.of_nat (length results))
           then Return (drop (Z.to_nat startIdx) results, length results)
           else Panics slice_out_of_range
  end.

(** [refQueryFilter.apply]. *)
Definition refQueryFilter_apply (f : Criteria) (refs : list string) : list string :=
  fold_left
    (fun results ref =>
       match ReferenceIRI f with
       | None => (results ++ [ref])%list
       | Some iri =>
           if (ref =? iri)%string then (results ++ [ref])%list else results
       end)
    refs [].

(** [refQueryResults.filter]. *)
Definition refQueryResults_filter (r : list string) (query : Criteria)
    (options : QueryOptions) : Go (list string * nat) :=
  from_start_index (refQueryFilter_apply query r) options.

(** *** The reference store *)
Record referenceStore := mkReferenceStore {
  irisByObject : gmap string (list string)
}.

Definition newReferenceStore : referenceStore := mkReferenceStore ∅.

(** The slice a Go map gives for a key: nil when the key is absent. *)
Definition irisFor (s : referenceStore) (actor : string) : list string :=
  default [] (irisByObject s !! actor).

(** [referenceStore.add]. *)
Definition referenceStore_add (s : referenceStore) (actor iri : string)
  : referenceStore :=
  mkReferenceStore (<[actor := (irisFor s actor ++ [iri])%list]> (irisByObject s)).

(** The index at which the loop of [delete] finds [iri], counting from
    [i]. *)
Fixpoint indexOf (iri : string) (irisForActor : list string) (i : nat) : option nat :=
  match irisForActor with
  | [] => None
  | x :: rest => if (x =? iri)%string then Some i else indexOf iri rest (S i)
  end.

(** [referenceStore.delete]. *)
Definition referenceStore_delete (s : referenceStore) (actor iri : string)
  : referenceStore :=
  let irisForActor := irisFor s actor in
  match indexOf iri irisForActor 0 with
  | Some i =>
      mkReferenceStore
        (<[actor := (take i irisForActor ++ drop (S i) irisForActor)%list]>
           (irisByObject s))
  | None => s
  end.

(** [referenceStore.query]: the iterator is the pair [NewReferenceIterator]
    is given. *)
Definition referenceStore_query (s : referenceStore) (query : Criteria)
    (options : QueryOptions) : Go (list string * nat + error) :=
  match ObjectIRI query with
  | None => Return (inr (Errorf "object IRI is required"))
  | Some object =>
      match refQueryResults_filter (irisFor s object) query options with
      | Panics reason => Panics reason
      | Return it => Return (inl it)
      end
  end.

(** *** The activity store *)
Section Activities.
(** [vocab.ActivityType], of which the store uses the string of the ID and
    [Type().IsAny]. *)
Variable Activity : Type.
Variable ID : Activity -> string.
Variable IsAny : Activity -> list string -> bool.

Record activityStore := mkActivityStore {
  activities : list Activity;
  activityByID : gmap string Activity
}.

Definition newActivitiesStore : activityStore := mkActivityStore [] ∅.

(** [activityStore.add]. *)
Definition activityStore_add (s : activityStore) (activity : Activity)
  : activityStore :=
  mkActivityStore (activities s ++ [activity])%list
    (<[ID activity := activity]> (activityByID s)).

(** [activityStore.get]. *)
Definition activityStore_get (s : activityStore) (activityID : string)
  : Activity + error :=
  match activityByID s !! activityID with
  | Some a => inl a
  | None => inr ErrNotFound
  end.

(** [activityQueryFilter.apply]. *)
Definition activityQueryFilter_apply (q : Criteria) (acts : list Activity)
  : list Activity :=
  if (0 <? length (ActivityIRIs q))%nat then
    fold_left
      (fun results a =>
         if containsIRI (ActivityIRIs q) (ID a) then (results ++ [a])%list
         else results)
      acts []
  else
    fold_left
      (fun results a =>
         if (length (Types q) =? 0)%nat || IsAny a (Types q)
         then (results ++ [a])%list else results)
      acts [].

(** [activityQueryResults.filter]. *)
Definition activityQueryResults_filter (r : list Activity) (query : Criteria)
    (options : QueryOptions) : Go (list Activity * nat) :=
  from_start_index (activityQueryFilter_apply query r) options.

(** [activityStore.query]: the iterator is the pair [NewActivityIterator] is
    given. *)
Definition activityStore_query (s : activityStore) (query : Criteria)
    (options : QueryOptions) : Go (list Activity * nat) :=
  activityQueryResults_filter (activities s) query options.

(** *** The store *)
Record Store := mkStore {
  activityStore_ : activityStore;
  referenceStores : gmap ReferenceType referenceStore
}.

(** [New]. *)
Definition New : Store :=
  mkStore newActivitiesStore
    (list_to_map
       [(Inbox, newReferenceStore); (Outbox, newReferenceStore);
        (PublicOutbox, newReferenceStore); (Follower, newReferenceStore);
        (Following, newReferenceStore); (Witness, newReferenceStore);
        (Witnessing, newReferenceStore); (Like, newReferenceStore);
        (Liked, newReferenceStore); (Share, newReferenceStore);
        (AnchorLinkset, newReferenceStore)]).

(** [Store.AddActivity]. *)
Definition AddActivity (s : Store) (activity : Activity) : Store * option error :=
  (mkStore (activityStore_add (activityStore_ s) activity) (referenceStores s),
   None).

(** [Store.GetActivity]. *)
Definition GetActivity (s : Store) (activityID : string) : Activity + error :=
  activityStore_get (activityStore_ s) activityID.

(** [Store.AddReference]: a method called on the nil pointer the map gives
    for a type it does not hold panics when it locks the mutex. *)
Definition AddReference (s : Store) (referenceType : ReferenceType)
    (objectIRI referenceIRI : option string) : Go (Store * option error) :=
  match objectIRI with
  | None => Return (s, Some (Errorf "nil object IRI"))
  | Some object =>
      match referenceIRI with
      | None => Return (s, Some (Errorf "nil reference IRI"))
      | Some reference =>
          match referenceStores s !! referenceType with
          | None => Panics nil_dereference
          | Some rs =>
              Return
                (mkStore (activityStore_ s)
                   (<[referenceType := referenceStore_add rs object reference]>
                      (referenceStores s)),
                 None)
          end
      end
  end.

(** [Store.DeleteReference]. *)
Definition DeleteReference (s : Store) (referenceType : ReferenceType)
    (objectIRI referenceIRI : option string) : Go (Store * option error) :=
  match objectIRI with
  | None => Return (s, Some (Errorf "nil object IRI"))
  | Some object =>
      match referenceIRI with
      | None => Return (s, Some (Errorf "nil reference IRI"))
      | Some reference =>
          match referenceStores s !! referenceType with
          | None => Panics nil_dereference
          | Some rs =>
              Return
                (mkStore (activityStore_ s)
                   (<[referenceType := referenceStore_delete rs object reference]>
                      (referenceStores s)),
                 None)
          end
      end
  end.

(** [Store.QueryReferences]. *)
Definition QueryReferences (s : Store) (refType : ReferenceType)
    (query : Criteria) (options : QueryOptions)
  : Go (list string * nat + error) :=
  match referenceStores s !! refType with
  | None => Panics nil_dereference
  | Some rs => referenceStore_query rs query options
  end.
(** The references of a type that an object has in the store. *)
Definition references (s : Store) (refType : ReferenceType) (object : string)
  : list string :=
  match referenceStores s !! refType with
  | Some rs => irisFor rs object
  | None => []
  end.

(** The types for which [New] makes a reference store. *)
Definition registered (refType : ReferenceType) : bool :=
  match refType with
  | OtherType _ => false
  | _ => true
  end.

(** The calls that change a store, and a program of such calls run on a
    store; an error a call returns is dropped, a panic ends the program. *)
Inductive Call :=
| CallAddActivity (activity : Activity)
| CallAddReference (referenceType : ReferenceType)
    (objectIRI referenceIRI : option string)
| CallDeleteReference (referenceType : ReferenceType)
    (objectIRI referenceIRI : option string).

Definition call (s : Store) (c : Call) : Go Store :=
  match c with
  | CallAddActivity activity => Return (fst (AddActivity s activity))
  | CallAddReference t objectIRI referenceIRI =>
      match AddReference s t objectIRI referenceIRI with
      | Return (s', _) => Return s'
      | Panics reason => Panics reason
      end
  | CallDeleteReference t objectIRI referenceIRI =>
      match DeleteReference s t objectIRI referenceIRI with
      | Return (s', _) => Return s'
      | Panics reason => Panics reason
      end
  end.

Fixpoint calls (s : Store) (cs : list Call) : Go Store :=
  match cs with
  | [] => Return s
  | c :: rest =>
      match call s c with
      | Return s' => calls s' rest
      | Panics reason => Panics reason
      end
  end.
End Activities.
End Results.

Arguments activities {Activity} _.
Arguments activityByID {Activity} _.
Arguments activityStore_ {Activity} _.
Arguments referenceStores {Activity} _.
Arguments newActivitiesStore {Activity}.
Arguments activityStore_add {Activity} ID s activity.
Arguments activityStore_get {Activity} s activityID.
Arguments activityQueryFilter_apply {Activity} ID IsAny q acts.
Arguments activityQueryResults_filter reverseSort {Activity} ID IsAny r query options.
Arguments activityStore_query reverseSort {Activity} ID IsAny s query options.
Arguments New {Activity}.
Arguments AddActivity {Activity} ID s activity.
Arguments GetActivity {Activity} s activityID.
Arguments AddReference {Activity} s referenceType objectIRI referenceIRI.
Arguments DeleteReference {Activity} s referenceType objectIRI referenceIRI.
Arguments QueryReferences reverseSort {Activity} s refType query options.
Arguments references {Activity} s refType object.
Arguments CallAddActivity {Activity} activity.
Arguments CallAddReference {Activity} referenceType objectIRI referenceIRI.
Arguments CallDeleteReference {Activity} referenceType objectIRI referenceIRI.
Arguments call {Activity} ID s c.
Arguments calls {Activity} ID s cs.
End memstore.

(** Activities given by the string of their ID and their types, and the
    reversal for [reverseSort] (what the stable sort makes of a short
    slice). *)
Module memstore_example.
Import memstore.

Definition Activity : Type := string * list string.
Definition ID (a : Activity) : string := fst a.
Definition IsAny (a : Activity) (types : list string) : bool :=
  existsb (fun t => existsb (String.eqb t) (snd a)) types.
Definition reverseSort (A : Type) (l : list A) : list A := rev l.

Definition create1 : Activity := ("https://orb.example/activities/1", ["Create"]).
Definition follow2 : Activity := ("https://orb.example/activities/2", ["Follow"]).
Definition accept3 : Activity := ("https://orb.example/activities/3", ["Accept"]).
Definition create4 : Activity := ("https://orb.example/activities/4", ["Create"]).
Definition create5 : Activity := ("https://orb.example/activities/5", ["Create"]).
(** A second activity stored under the ID of [create1]. *)
Definition announce1 : Activity := ("https://orb.example/activities/1", ["Announce"]).

Definition five : list Activity := [create1; follow2; accept3; create4; create5].

Definition service : string := "https://orb.example/services/orb".
Definition alice : string := "https://alice.example/services/orb".
Definition bob : string := "https://bob.example/services/orb".

Definition everything : Criteria := mkCriteria [] None None [].
Definition of_service : Criteria := mkCriteria [] (Some service) None [].

(** The store a program of calls makes of a new store (the new store if it
    panics). *)
Definition after (cs : list (Call Activity)) : Store Activity :=
  match calls ID New cs with
  | Return s => s
  | Panics _ => New
  end.

(** Alice follows the service, then Bob, then Alice once more. *)
Definition follow_alice : Call Activity :=
  CallAddReference Follower (Some service) (Some alice).
Definition follow_bob : Call Activity :=
  CallAddReference Follower (Some service) (Some bob).
Definition unfollow_alice : Call Activity :=
  CallDeleteReference Follower (Some service) (Some alice).
Definition followed : list (Call Activity) :=
  [follow_alice; follow_bob; follow_alice].
End memstore_example.

(** ** Package expiry: the removal of expired data *)
Module expiry.

(** [storage.Operation]: a key, a value and tags; [Operation{Key: key}] has
    neither value nor tags. *)
Record Operation := mkOperation {
  Key : string;
  Value : option string;
  Tags : list (string * string)
}.

(** A [storage.Iterator], by the answers it gives to the calls of
    [deleteExpiredData]: [Next] reports the end, or fails, or reports an
    entry, of which [Key] gives the key or fails. *)
Inductive Iterator :=
| IterEnd
| IterNextFails (err : string)
| IterEntry (key : string + string) (rest : Iterator).

(** The iterator that gives the keys [keys] and then goes on as [rest]. *)
Definition yields (keys : list string) (rest : Iterator) : Iterator :=
  fold_right (fun key it => IterEntry (inl key) it) rest keys.

(** The decimal text [%d] prints. *)
Definition format_int (z : Z) : string := NilZero.string_of_int (Z.to_int z).

Section Service.
(** The state of everything behind the interfaces (the databases, the
    handlers, the clock), which their methods read and change. *)
Variable World : Type.
(** [time.Now().Unix()]. *)
Variable Unix : World -> Z.

(** [storage.Store], as far as the service calls it. An error is its
    text. *)
Record Store := mkStore {
  Query_ : World -> string -> World * (Iterator + string);
  Batch_ : World -> list Operation -> World * option string
}.

(** The [expiryHandler] interface. *)
Record expiryHandler := mkExpiryHandler {
  HandleExpiredKeys : World -> list string -> World * option string
}.

(** [noopExpiryHandler]. *)
Definition noopExpiryHandler : expiryHandler :=
  mkExpiryHandler (fun w _ => (w, None)).

Record registeredStore := mkRegisteredStore {
  store : Store;
  name : string;
  expiryTagName : string;
  expiryHandler_ : expiryHandler
}.

(** [Option] and [WithExpiryHandler]. *)
Definition Option : Type := registeredStore -> registeredStore.

Definition WithExpiryHandler (handler : expiryHandler) : Option :=
  fun opts =>
    mkRegisteredStore (store opts) (name opts) (expiryTagName opts) handler.

Record Service := mkService {
  registeredStores : list registeredStore
}.

(** [NewService]: the service the scheduler is given to run. *)
Definition NewService : Service := mkService [].

(** [Service.Register]. *)
Definition Register (s : Service) (store : Store)
    (expiryTagName storeName : string) (opts : list Option) : Service :=
  let newRegisteredStore :=
    fold_left (fun r opt => opt r) opts
      (mkRegisteredStore store storeName expiryTagName noopExpiryHandler) in
  mkService (registeredStores s ++ [newRegisteredStore])%list.

(** The calls [deleteExpiredData] makes on the interfaces, with the name of
    the registered store that makes them. *)
Inductive Call :=
| CallQuery (storeName expression : string)
| CallHandleExpiredKeys (storeName : string) (keys : list string)
| CallBatch (storeName : string) (operations : list Operation).

(** The names of the stores queried, in the order of the calls. *)
Definition queried (cs : list Call) : list string :=
  flat_map (fun c => match c with CallQuery storeName _ => [storeName] | _ => [] end) cs.

(** What a run leaves: the world, the calls made in order, and the error
    returned. *)
Record Swept := mkSwept {
  world : World;
  calls : list Call;
  err : option string
}.

(** The loop of [deleteExpiredData] over the iterator: the keys to delete,
    or the error it returns with. *)
Fixpoint keysToDelete (iterator : Iterator) (keys : list string)
  : list string + string :=
  match iterator with
  | IterEnd => inl keys
  | IterNextFails err => inr ("get next value from iterator: " ++ err)%string
  | IterEntry (inr errKey) _ => inr ("get key from iterator: " ++ errKey)%string
  | IterEntry (inl key) rest => keysToDelete rest (keys ++ [key])%list
  end.

(** [registeredStore.deleteExpiredData]. *)
Definition registeredStore_deleteExpiredData (r : registeredStore) (w : World)
  : Swept :=
  let expression := (expiryTagName r ++ "<=" ++ format_int (Unix w))%string in
  let query := CallQuery (name r) expression in
  match Query_ (store r) w expression with
  | (w1, inr err) =>
      mkSwept w1 [query] (Some ("query store for expired data: " ++ err)%string)
  | (w1, inl iterator) =>
      match keysToDelete iterator [] with
      | inr err => mkSwept w1 [query] (Some err)
      | inl keys =>
          let handle := CallHandleExpiredKeys (name r) keys in
          match HandleExpiredKeys (expiryHandler_ r) w1 keys with
          | (w2, Some err) =>
              mkSwept w2 [query; handle]
                (Some ("invoke expiry handler: " ++ err)%string)
          | (w2, None) =>
              if (0 <? length keys)%nat then
                let operations := map (fun key => mkOperation key None []) keys in
                match Batch_ (store r) w2 operations with
                | (w3, Some err) =>
                    mkSwept w3 [query; handle; CallBatch (name r) operations]
                      (Some ("delete expired data: " ++ err)%string)
                | (w3, None) =>
                    mkSwept w3 [query; handle; CallBatch (name r) operations] None
                end
              else mkSwept w2 [query; handle] None
          end
      end
  end.

(** What a sweep of the service leaves: the world, the calls made, and the
    warnings logged (store name and error). *)
Record Sweep := mkSweep {
  sweep_world : World;
  sweep_calls : list Call;
  warnings : list (string * string)
}.

(** [Service.deleteExpiredData]. *)
Definition Service_deleteExpiredData (s : Service) (w : World) : Sweep :=
  fold_left
    (fun acc registeredStore =>
       let swept := registeredStore_deleteExpiredData registeredStore (sweep_world acc) in
       mkSweep (world swept) (sweep_calls acc ++ calls swept)%list
         match err swept with
         | Some e => (warnings acc ++ [(name registeredStore, e)])%list
         | None => warnings acc
         end)
    (registeredStores s) (mkSweep w [] []).
End Service.

Arguments mkStore {World} _ _.
Arguments Query_ {World} _ _ _.
Arguments Batch_ {World} _ _ _.
Arguments mkExpiryHandler {World} _.
Arguments HandleExpiredKeys {World} _ _ _.
Arguments noopExpiryHandler {World}.
Arguments mkRegisteredStore {World} _ _ _ _.
Arguments store {World} _.
Arguments name {World} _.
Arguments expiryTagName {World} _.
Arguments expiryHandler_ {World} _.
Arguments WithExpiryHandler {World} handler _.
Arguments mkService {World} _.
Arguments registeredStores {World} _.
Arguments NewService {World}.
Arguments Register {World} s store expiryTagName storeName opts.
Arguments mkSwept {World} _ _ _.
Arguments world {World} _.
Arguments calls {World} _.
Arguments err {World} _.
Arguments registeredStore_deleteExpiredData {World} Unix r w.
Arguments mkSweep {World} _ _ _.
Arguments sweep_world {World} _.
Arguments sweep_calls {World} _.
Arguments warnings {World} _.
Arguments Service_deleteExpiredData {World} Unix s w.
End expiry.

(** A database that lists all its keys as expired and deletes the keys of a
    batch, and one that loses its connection while listing. *)
Module expiry_example.
Import expiry.

Definition World : Type := list string.
Definition Unix (w : World) : Z := 1700000000.

Definition database : Store World :=
  mkStore
    (fun w _ => (w, inl (yields w IterEnd)))
    (fun w operations =>
       (List.filter
          (fun key => negb (existsb (String.eqb key) (map Key operations))) w,
        None)).

Definition broken : Store World :=
  mkStore
    (fun w _ => (w, inl (yields w (IterNextFails "connection lost"))))
    (fun w _ => (w, Some "connection lost")).

(** A handler that refuses. *)
Definition refusing : expiryHandler World :=
  mkExpiryHandler (fun w _ => (w, Some "not now")).

Definition anchors : registeredStore World :=
  mkRegisteredStore database "anchor-status" "expiryTime" noopExpiryHandler.
Definition unpublished : registeredStore World :=
  mkRegisteredStore broken "unpublished-operation" "expirationTime" noopExpiryHandler.

Definition service : Service World :=
  Register (Register NewService broken "expirationTime" "unpublished-operation" [])
    database "expiryTime" "anchor-status" [WithExpiryHandler refusing;
                                            WithExpiryHandler noopExpiryHandler].

Definition two_keys : World := ["anchor-1"; "anchor-2"].
End expiry_example.
(** ** Tactics *)

(** Case analysis on every test of a hypothesis, innermost first. *)
Ltac split_tests H :=
  repeat match type of H with
         | context [match ?x with _ => _ end] =>
             lazymatch x with
             | context [match _ with _ => _ end] => fail
             | _ => destruct x eqn:?
             end
         end.


(* ===================================================================== *)
(** * Part II. Theorems                                                   *)
(* ===================================================================== *)

(** ** Package httpsubscriber *)
Section SubscriberFacts.
Import message gochan httpsubscriber.
Context {Request : Type}.
Variable Verify : Request -> bool.
Variable VerifyRequest : Request -> bool * option string * option string.
Variable unmarshalMessage : Request -> Message + string.

Local Abbreviation exec' := (exec Verify VerifyRequest unmarshalMessage).

Lemma close_protocol_init (s : Subscriber) :
  stopped s = false -> done s = false ->
  closed (msgChan s) = false -> closed (pubChan s) = false ->
  close_protocol (@init Request s).
Proof.
  intros Hs Hd Hc Hc'. unfold close_protocol, init; simpl.
  rewrite Hs, Hd, Hc. repeat split; try congruence; intuition congruence.
Qed.

Lemma close_protocol_exec (l : Label Request) (y y' : System Request) :
  close_protocol y -> exec' l y = Some y' -> close_protocol y'.
Proof.
  intros (Hp & Hdone & Hstopped & Hwait & Hclosed & Hpub) Hexec.
  unfold exec in Hexec. rewrite Hp in Hexec.
  destruct y as [s p t hs dl pk]; simpl in *.
  destruct l; simpl in Hexec;
    unfold send, recv, close, full in Hexec;
    split_tests Hexec; try discriminate;
    injection Hexec as <-; unfold close_protocol; simpl;
    destruct s as [? ? [? ? ?] [? ? ?] ? ?]; simpl in *; subst;
    intuition (try congruence).
Qed.

Lemma close_protocol_run (ls : list (Label Request)) (y y' : System Request) :
  close_protocol y ->
  run Verify VerifyRequest unmarshalMessage ls y = Some y' ->
  close_protocol y'.
Proof.
  revert y. induction ls as [|l ls IH]; intros y Hinv Hrun; simpl in Hrun.
  - now injection Hrun as <-.
  - destruct (exec' l y) as [y1|] eqn:Hexec; [|discriminate].
    eapply IH; [|exact Hrun]. eapply close_protocol_exec; eauto.
Qed.

Lemma New_close_protocol (c : Config) (s : Subscriber) :
  New c = Some s -> close_protocol (@init Request s).
Proof.
  unfold New. intros H.
  destruct (_ <? 0); [discriminate|]. injection H as <-.
  now apply close_protocol_init.
Qed.

(** No move changes the capacity of [pubChan] or of [msgChan]. *)
Lemma exec_cap (l : Label Request) (y y' : System Request) :
  exec' l y = Some y' ->
  cap (pubChan (sub y')) = cap (pubChan (sub y)) /\
  cap (msgChan (sub y')) = cap (msgChan (sub y)).
Proof.
  intros Hexec. unfold exec in Hexec.
  destruct y as [s p t hs dl pk]; simpl in *.
  destruct l; simpl in Hexec;
    unfold send, recv, close, full in Hexec;
    split_tests Hexec; try discriminate;
    injection Hexec as <-; simpl; auto;
    destruct s as [? ? [? ? ?] [? ? ?] ? ?]; simpl in *;
    repeat match goal with
           | H : RecvOk _ _ = RecvOk _ _ |- _ => injection H as <- <-
           | H : SendOk _ = SendOk _ |- _ => injection H as <-
           | H : Some _ = Some _ |- _ => injection H as <-
           end; simpl; auto.
Qed.

Lemma run_cap (ls : list (Label Request)) (y y' : System Request) :
  run Verify VerifyRequest unmarshalMessage ls y = Some y' ->
  cap (pubChan (sub y')) = cap (pubChan (sub y)) /\
  cap (msgChan (sub y')) = cap (msgChan (sub y)).
Proof.
  revert y. induction ls as [|l ls IH]; intros y Hrun; simpl in Hrun.
  - now injection Hrun as <-.
  - destruct (exec' l y) as [y1|] eqn:Hexec; [|discriminate].
    destruct (exec_cap _ _ _ Hexec) as [<- <-]. now apply IH.
Qed.

(** C7. In every execution of the HTTP subscriber (every schedule of its
    goroutines, started from [New]), nothing panics, [msgChan] is closed only
    after [stopped] was closed, the publisher has seen it, closed [done] and
    returned; so [msgChan] is never closed while a goroutine stands at a send
    into it. *)
Theorem msgChan_not_closed_while_sending
    (c : Config) (s : Subscriber) (ls : list (Label Request))
    (y : System Request) :
  New c = Some s ->
  run Verify VerifyRequest unmarshalMessage ls (init s) = Some y ->
  panicked y = false /\
  (closed (msgChan (sub y)) = true ->
     stopped (sub y) = true /\ done (sub y) = true /\ pub y = PubReturned) /\
  ~ (closed (msgChan (sub y)) = true /\ sending_to_msgChan y).
Proof.
  intros Hnew Hrun.
  pose proof (close_protocol_run _ _ _ (New_close_protocol _ _ Hnew) Hrun)
    as (Hp & Hdone & Hstopped & Hwait & Hclosed & _).
  split; [exact Hp|].
  assert (Hall : closed (msgChan (sub y)) = true ->
                 stopped (sub y) = true /\ done (sub y) = true /\
                 pub y = PubReturned).
  { intros Hc. apply Hclosed in Hc.
    assert (Hd : done (sub y) = true) by (apply Hwait; now right).
    repeat split; [|exact Hd|now apply Hdone].
    apply Hstopped. rewrite Hc. split; discriminate. }
  split; [exact Hall|].
  intros [Hc [m Hm]]. destruct (Hall Hc) as (_ & _ & Hret). congruence.
Qed.

Lemma New_cap (c : Config) (s : Subscriber) :
  New c = Some s ->
  cap (pubChan s) = Z.to_nat (if BufferSize c =? 0 then 100 else BufferSize c).
Proof.
  unfold New, defaultBufferSize. intros H.
  destruct (_ <? 0); [discriminate|]. now injection H as <-.
Qed.

(** C1, as the code has it. For a request that is authenticated and whose
    body unmarshals, in any state the subscriber reaches after [New]:
    [pubChan] has capacity [BufferSize] (100 when the configuration says 0);
    when the service is not in state Started the handler writes 503 and
    returns, queuing nothing; when the service is started and the buffer is
    full the handler writes no status at all: it waits in the send. *)
Theorem stopped_gives_503_and_full_buffer_blocks
    (c : Config) (s0 : Subscriber) (ls : list (Label Request))
    (y : System Request) (id : nat) (r : Request) (actor : option string)
    (m : Message) (ev : Events) (pick : SelectCase) (w : http.ResponseWriter) :
  New c = Some s0 ->
  run Verify VerifyRequest unmarshalMessage ls (init s0) = Some y ->
  authenticate Verify VerifyRequest r = AuthOK actor ->
  unmarshalMessage r = inl m ->
  cap (pubChan (sub y))
    = Z.to_nat (if BufferSize c =? 0 then 100 else BufferSize c) /\
  (state (sub y) <> lifecycle.StateStarted ->
     handleMessage Verify VerifyRequest unmarshalMessage (sub y) id r ev pick w
       = Returned (sub y) (http.WriteHeader w 503)) /\
  (state (sub y) = lifecycle.StateStarted ->
     (cap (pubChan (sub y)) <= length (buf (pubChan (sub y))))%nat ->
     handleMessage Verify VerifyRequest unmarshalMessage (sub y) id r ev pick w
       = BlockedOnPubChan w).
Proof.
  intros Hnew Hrun Hauth Hbody.
  pose proof (close_protocol_run _ _ _ (New_close_protocol _ _ Hnew) Hrun)
    as (_ & _ & _ & _ & _ & Hopen).
  split; [|split].
  - destruct (run_cap _ _ _ Hrun) as [-> _]. simpl. now apply New_cap.
  - intros Hst. unfold handleMessage, prepare, publish, publish_check.
    rewrite Hauth, Hbody.
    destruct (state (sub y)); simpl; first [reflexivity | congruence].
  - intros Hst Hfull. unfold handleMessage, prepare, publish, publish_check.
    rewrite Hauth, Hbody, Hst. simpl. unfold send, full. rewrite Hopen.
    apply Nat.leb_le in Hfull. now rewrite Hfull.
Qed.


End SubscriberFacts.

(** *** The subscriber on concrete schedules *)

(** One request with a valid token: it is queued, shovelled to [msgChan],
    consumed and acknowledged, and the handler answers 200. *)
Example ack_round_trip :
  httpsubscriber.New subscriber_example.inbox = Some subscriber_example.started /\
  subscriber_example.run subscriber_example.deliver_and_ack
    (httpsubscriber.init subscriber_example.started)
  = Some (subscriber_example.after subscriber_example.deliver_and_ack
            subscriber_example.started) /\
  map (fun h => http.headers (httpsubscriber.h_w h))
    (httpsubscriber.handlers
       (subscriber_example.after subscriber_example.deliver_and_ack
          subscriber_example.started))
  = [[200]].
Proof. repeat split; vm_compute; reflexivity. Qed.

(** A request is queued and delivered, then the service is closed: [stop]
    closes [msgChan] only after the publisher has returned. *)
Lemma msgChan_not_closed_while_sending_witness :
  httpsubscriber.New subscriber_example.inbox = Some subscriber_example.started /\
  subscriber_example.run subscriber_example.deliver_and_close
    (httpsubscriber.init subscriber_example.started)
  = Some (subscriber_example.after subscriber_example.deliver_and_close
            subscriber_example.started) /\
  gochan.closed
    (httpsubscriber.msgChan
       (httpsubscriber.sub
          (subscriber_example.after subscriber_example.deliver_and_close
             subscriber_example.started))) = true /\
  httpsubscriber.panicked
    (subscriber_example.after subscriber_example.deliver_and_close
       subscriber_example.started) = false /\
  httpsubscriber.pub
    (subscriber_example.after subscriber_example.deliver_and_close
       subscriber_example.started) = httpsubscriber.PubReturned.
Proof.
  destruct (msgChan_not_closed_while_sending
              subscriber_example.Verify subscriber_example.VerifyRequest
              subscriber_example.unmarshalMessage
              subscriber_example.inbox subscriber_example.started
              subscriber_example.deliver_and_close
              (subscriber_example.after subscriber_example.deliver_and_close
                 subscriber_example.started)
              eq_refl eq_refl) as (Hp & Hall & _).
  split; [reflexivity|]. split; [reflexivity|]. split; [reflexivity|].
  split; [exact Hp|]. now apply Hall.
Defined.

(** After [Close], a request with a valid token is answered 503. *)
Lemma stopped_gives_503_and_full_buffer_blocks_witness :
  httpsubscriber.New subscriber_example.inbox = Some subscriber_example.started /\
  subscriber_example.run [httpsubscriber.LClose]
    (httpsubscriber.init subscriber_example.started)
  = Some (subscriber_example.after [httpsubscriber.LClose]
            subscriber_example.started) /\
  gochan.cap
    (httpsubscriber.pubChan
       (httpsubscriber.sub
          (subscriber_example.after [httpsubscriber.LClose]
             subscriber_example.started))) = 100%nat /\
  subscriber_example.handleMessage
    (httpsubscriber.sub
       (subscriber_example.after [httpsubscriber.LClose]
          subscriber_example.started))
    0 subscriber_example.with_token subscriber_example.no_event
    httpsubscriber.CaseAcked http.newResponseWriter
  = httpsubscriber.Returned
      (httpsubscriber.sub
         (subscriber_example.after [httpsubscriber.LClose]
            subscriber_example.started))
      (http.WriteHeader http.newResponseWriter 503).
Proof.
  destruct (stopped_gives_503_and_full_buffer_blocks
              subscriber_example.Verify subscriber_example.VerifyRequest
              subscriber_example.unmarshalMessage
              subscriber_example.inbox subscriber_example.started
              [httpsubscriber.LClose]
              (subscriber_example.after [httpsubscriber.LClose]
                 subscriber_example.started)
              0 subscriber_example.with_token
              None (message.mkMessage "uuid" "payload" ∅)
              subscriber_example.no_event
              httpsubscriber.CaseAcked http.newResponseWriter
              eq_refl eq_refl eq_refl eq_refl) as (Hcap & Hstopped & _).
  split; [reflexivity|]. split; [reflexivity|].
  split; [exact Hcap|]. apply Hstopped. discriminate.
Defined.

(** C1 as stated fails. With [BufferSize] 1 and one message queued, the
    service is started and [pubChan] is full; the handler of the next
    authenticated request writes no 503 (it writes nothing): it is blocked in
    [s.pubChan <- msg]. *)
Lemma full_buffer_does_not_give_503 :
  httpsubscriber.New subscriber_example.narrow
  = Some subscriber_example.started_narrow /\
  subscriber_example.run subscriber_example.queue_one
    (httpsubscriber.init subscriber_example.started_narrow)
  = Some (subscriber_example.after subscriber_example.queue_one
            subscriber_example.started_narrow) /\
  httpsubscriber.state
    (httpsubscriber.sub
       (subscriber_example.after subscriber_example.queue_one
          subscriber_example.started_narrow)) = lifecycle.StateStarted /\
  gochan.full
    (httpsubscriber.pubChan
       (httpsubscriber.sub
          (subscriber_example.after subscriber_example.queue_one
             subscriber_example.started_narrow))) = true /\
  httpsubscriber.authenticate subscriber_example.Verify
    subscriber_example.VerifyRequest subscriber_example.with_token
  = httpsubscriber.AuthOK None /\
  subscriber_example.unmarshalMessage subscriber_example.with_token
  = inl (message.mkMessage "uuid" "payload" ∅) /\
  forall ev pick,
    subscriber_example.handleMessage
      (httpsubscriber.sub
         (subscriber_example.after subscriber_example.queue_one
            subscriber_example.started_narrow))
      1 subscriber_example.with_token ev pick http.newResponseWriter
    = httpsubscriber.BlockedOnPubChan http.newResponseWriter /\
    ~ httpsubscriber.responds_with 503 http.newResponseWriter
        (subscriber_example.handleMessage
           (httpsubscriber.sub
              (subscriber_example.after subscriber_example.queue_one
                 subscriber_example.started_narrow))
           1 subscriber_example.with_token ev pick http.newResponseWriter).
Proof.
  do 6 (split; [vm_compute; reflexivity|]).
  intros ev pick.
  assert (H : subscriber_example.handleMessage
      (httpsubscriber.sub
         (subscriber_example.after subscriber_example.queue_one
            subscriber_example.started_narrow))
      1 subscriber_example.with_token ev pick http.newResponseWriter
    = httpsubscriber.BlockedOnPubChan http.newResponseWriter)
    by reflexivity.
  split; [exact H|]. rewrite H. intros [s' Hs]. discriminate Hs.
Qed.


(** ** Package resthandler *)
Section ConfiguratorFacts.
Import resthandler.
Context {Store ParseError Policy : Type}.
Variable Put : Store -> string -> string -> Store * option string.
Variable Parse : string -> ParseError + Policy.
Variable WitnessPolicyKey : string.

Local Abbreviation handle' := (handle Put Parse WitnessPolicyKey).

(** [writeResponse] writes exactly one header. *)
Lemma writeResponse_headers (w : http.ResponseWriter) (status : Z) (body : string) :
  http.headers (writeResponse w status body) = (http.headers w ++ [status])%list.
Proof. unfold writeResponse. now destruct (0 <? String.length body)%nat. Qed.

(** C10. A POST to [/policy] whose body cannot be read or does not parse as
    a witness policy is answered 400 and the store is left as it was, with no
    [Put] made; a [Put] is made only for a body that was read and parsed, with
    the policy key and the body as read; and when that [Put] fails the answer
    is 500. *)
Theorem handle_bad_request_leaves_store
    (store : Store) (w : http.ResponseWriter) (body : string * option string) :
  (snd body <> None \/ (exists e, Parse (fst body) = inl e) ->
     http.headers (response (handle' store w body)) = (http.headers w ++ [400])%list /\
     configStore (handle' store w body) = store /\
     puts (handle' store w body) = []) /\
  (puts (handle' store w body) <> [] ->
     snd body = None /\ (exists p, Parse (fst body) = inr p) /\
     puts (handle' store w body) = [(WitnessPolicyKey, fst body)] /\
     configStore (handle' store w body)
       = fst (Put store WitnessPolicyKey (fst body))) /\
  (snd body = None -> (exists p, Parse (fst body) = inr p) ->
     (exists e, snd (Put store WitnessPolicyKey (fst body)) = Some e) ->
     http.headers (response (handle' store w body)) = (http.headers w ++ [500])%list).
Proof.
  destruct body as [bytes err]; simpl.
  unfold handle.
  destruct err as [err|]; [|destruct (Parse bytes) as [e|p] eqn:Hparse;
    [|destruct (Put store WitnessPolicyKey bytes) as [store' [e|]] eqn:Hput]];
    simpl; rewrite ?writeResponse_headers;
    (split; [|split]).
  all: try (intros [H|[e' H]]; first [congruence | now repeat split]).
  all: try (intros H; first [congruence | now repeat split; eauto]).
  all: try (intros _ [p' H]; congruence).
  all: try (intros _ _ [e' H]; first [congruence | reflexivity]).
Qed.

End ConfiguratorFacts.

(** The configurator on concrete bodies: a policy that parses is stored and
    answered 200; an unknown rule is answered 400 and nothing is stored; a
    failing store is answered 500. *)
Example handle_on_bodies :
  resthandler.configStore
    (resthandler_example.handle ∅ http.newResponseWriter
       ("MinPercent(30,system) AND MinPercent(70,batch)", None))
    !! resthandler_example.WitnessPolicyKey
  = Some "MinPercent(30,system) AND MinPercent(70,batch)" /\
  resthandler.response
    (resthandler_example.handle ∅ http.newResponseWriter
       ("MinPercent(30,system) AND MinPercent(70,batch)", None))
  = http.mkResponseWriter [200] "" /\
  resthandler_example.handle ∅ http.newResponseWriter ("Test(a,b)", None)
  = resthandler.mkHandled ∅ [] (http.mkResponseWriter [400] "Bad Request.") /\
  resthandler.response
    (resthandler_example.handle_failing ∅ http.newResponseWriter ("", None))
  = http.mkResponseWriter [500] "Internal Server Error.".
Proof. repeat split; vm_compute; reflexivity. Qed.

(** ** Strings *)
Section StringFacts.
Import strings.

Lemma HasPrefix_app (p s : string) : HasPrefix (p ++ s) p = true.
Proof.
  induction p as [|a p IH]; simpl; [reflexivity|].
  now rewrite Ascii.eqb_refl, IH.
Qed.

Lemma Contains_prefix (s sub : string) : HasPrefix s sub = true -> Contains s sub = true.
Proof. intros H. destruct s; simpl in *; now rewrite H. Qed.

(** [Contains] finds a substring wherever it stands. *)
Lemma Contains_app (pre sub post : string) :
  Contains (pre ++ sub ++ post) sub = true.
Proof.
  induction pre as [|a pre IH].
  - change (Contains (sub ++ post) sub = true).
    apply Contains_prefix, HasPrefix_app.
  - change (HasPrefix (String a (pre ++ sub ++ post)) sub
            || Contains (pre ++ sub ++ post) sub = true).
    rewrite IH. apply orb_true_r.
Qed.

Lemma Contains_refl (s : string) : Contains s s = true.
Proof.
  apply Contains_prefix.
  assert (H : (s ++ "")%string = s).
  { induction s as [|a s IH]; [reflexivity|].
    change (String a (s ++ "") = String a s). now rewrite IH. }
  rewrite <- H at 1. apply HasPrefix_app.
Qed.

End StringFacts.

(** ** Package config *)
Section ParseFacts.
Import config.





End ParseFacts.



(** ** Package policy: the cache *)

(** C8. When the cache's [Get] returns nil, retrieving the policy fails with
    an error that contains [failed to retrieve policy from policy cache (nil
    value)]; when it returns a value of a type [T] other than string, it
    fails with an error that contains [unexpected interface 'T' for witness
    policy value in policy cache]. *)
Theorem getWitnessPolicyConfig_nil_or_not_a_string :
  (exists err,
     policy.getWitnessPolicyConfig (policy.VNil, None) = inl err /\
     strings.Contains err
       "failed to retrieve policy from policy cache (nil value)" = true) /\
  (forall T : string,
     exists err,
       policy.getWitnessPolicyConfig (policy.VOther T, None) = inl err /\
       strings.Contains err
         ("unexpected interface '" ++ T
          ++ "' for witness policy value in policy cache") = true).
Proof.
  split.
  - eexists. split; [reflexivity|]. apply Contains_refl.
  - intros T. eexists. split; [reflexivity|]. apply Contains_refl.
Qed.

(** The four error cases of [TestGetWitnessPolicyConfig], through the
    [mockCache] of the tests. *)
Example TestGetWitnessPolicyConfig_errors :
  policy.getWitnessPolicyConfig
    (policy.mockCache_Get (policy.mkMockCache None None policy.VNil)
       policy.WitnessPolicyKey)
  = inl "failed to retrieve policy from policy cache (nil value)" /\
  policy.getWitnessPolicyConfig
    (policy.mockCache_Get
       (policy.mkMockCache (Some "get error") None policy.VNil)
       policy.WitnessPolicyKey)
  = inl "failed to retrieve policy from policy cache: get error" /\
  policy.getWitnessPolicyConfig
    (policy.mockCache_Get
       (policy.mkMockCache None None (policy.VOther "[]uint8"))
       policy.WitnessPolicyKey)
  = inl "unexpected interface '[]uint8' for witness policy value in policy cache" /\
  policy.getWitnessPolicyConfig
    (policy.mockCache_Get
       (policy.mkMockCache None None (policy.VString "Test(a,b)"))
       policy.WitnessPolicyKey)
  = inl "rule not supported: Test(a,b)".
Proof. repeat split; vm_compute; reflexivity. Qed.

(** ** Package policy: evaluation *)

(** The expectations of [TestEvaluate], in the order of the test file. *)
Example TestEvaluate_expectations :
  let P := policy_test.witnessBytes in
  let bU := policy_test.batchWitnessURL in
  let b2U := policy_test.batchWitness2URL in
  let sU := policy_test.systemWitnessURL in
  let s2U := policy_test.systemWitness2URL in
  let batch := policy_test.batch in
  let system := policy_test.system in
  map (fun t => fst (policy_test.Evaluate (fst t) (snd t)))
    [ ("", [batch bU false P; system bU false P]);
      ("LogRequired", [batch bU true P; system sU true P]);
      ("LogRequired", [batch bU false P; system sU true P]);
      (policy_test.halfAndHalfLog,
       [batch bU true P; batch b2U false P; system sU true P; system sU false P]);
      (policy_test.halfAndHalfLog, [system sU false P]);
      ("OutOf(1,system) OR OutOf(1,batch) LogRequired",
       [system sU false P; batch bU true P]);
      ("OutOf(1,system) AND OutOf(1,batch) LogRequired",
       [system sU true P; batch bU true P]);
      ("OutOf(1,system) AND OutOf(1,batch) LogRequired",
       [system sU false P; batch bU true P]);
      ("", [batch bU false ""; batch b2U false ""; system sU false "";
            system s2U false ""]);
      ("OutOf(1,system)",
       [batch bU false P; batch b2U false P; system sU false "";
        system s2U false ""]);
      ("OutOf(1,system)",
       [batch bU false P; batch b2U false P; system sU false P;
        system s2U false ""]);
      ("MinPercent(50,system) AND MinPercent(50,batch)",
       [batch bU false P; batch b2U false ""; system sU false P;
        system s2U false ""]);
      ("MinPercent(50,system) OR MinPercent(50,batch)",
       [batch bU false P; batch b2U false ""; system sU false "";
        system s2U false ""]);
      ("MinPercent(50,system) OR MinPercent(50,batch)",
       [batch bU false P; batch b2U false ""; system sU false ""]);
      ("MinPercent(50,system) AND MinPercent(50,batch)", [batch bU false P]);
      ("MinPercent(50,system) AND MinPercent(50,batch)", [system sU false P]);
      ("OutOf(0,batch) AND OutOf(1,system)", [batch bU false ""; system sU false P]);
      ("OutOf(1,batch) AND OutOf(1,system)", [batch bU false ""; system sU false P]);
      ("OutOf(1,batch) AND OutOf(1,system)", [batch bU false P; system sU false P]) ]
  = [ true; true; false; true; false; true; true; false; false; false; true;
      true; true; true; true; true; true; false; true ].
Proof. vm_compute. reflexivity. Qed.

Section EvaluateFacts.
Import config proof policy.
Local Open Scope nat_scope.

(** With no log-less witness in play the two readings of the leaf agree. *)
Lemma filter_checkLog_all (logRequired : bool) (l : list WitnessProof) :
  (logRequired = false \/ Forall (fun q => HasLog (Witness_ q) = true) l) ->
  List.filter (fun q => checkLog logRequired (Witness_ q)) l = l.
Proof.
  intros H. induction l as [|q l IH]; [reflexivity|]. simpl.
  assert (Hq : checkLog logRequired (Witness_ q) = true).
  { unfold checkLog. destruct H as [->|H]; [reflexivity|].
    inversion H; subst. rewrite H2. apply orb_true_r. }
  rewrite Hq, IH; [reflexivity|].
  destruct H as [H|H]; [now left|right]. now inversion H.
Qed.

Lemma filter_checkLog_present (logRequired : bool) (l : list WitnessProof) :
  (logRequired = false \/ Forall (fun q => HasLog (Witness_ q) = true) l) ->
  List.filter (fun q => checkLog logRequired (Witness_ q) && present q) l
  = List.filter present l.
Proof.
  intros H. induction l as [|q l IH]; [reflexivity|]. simpl.
  assert (Hq : checkLog logRequired (Witness_ q) = true).
  { unfold checkLog. destruct H as [->|H]; [reflexivity|].
    inversion H; subst. rewrite H2. apply orb_true_r. }
  rewrite Hq. simpl. rewrite IH; [reflexivity|].
  destruct H as [H|H]; [now left|right]. now inversion H.
Qed.

(** C4, as the tests have it. For a leaf [MinPercent(p, role)] and a proof
    set, let [W] be all the witnesses of the role, with or without a log:
    the leaf holds iff [W] is empty or the present proofs of witnesses of [W]
    that pass the [LogRequired] test, times 100, are at least [p] times
    [|W|]. When [LogRequired] is off, or every witness of the role has a log,
    this is the leaf as the specification words it. *)
Theorem MinPercent_counts_all_witnesses_of_role
    (logRequired : bool) (p : nat) (r : Role) (ps : list WitnessProof) :
  (evaluate logRequired ps (MinPercent p r) = true <->
     witnessesOf r ps = [] \/
     p * length (witnessesOf r ps)
     <= length (List.filter
                  (fun q => checkLog logRequired (Witness_ q) && present q)
                  (witnessesOf r ps)) * 100) /\
  (logRequired = false \/
   Forall (fun q => HasLog (Witness_ q) = true) (witnessesOf r ps) ->
   evaluate logRequired ps (MinPercent p r)
   = minPercent_as_specified logRequired p r ps).
Proof.
  split.
  - simpl. unfold total, collected.
    rewrite orb_true_iff, Nat.eqb_eq, Nat.leb_le.
    split; (intros [H|H]; [left|right; exact H]).
    + now apply length_zero_iff_nil.
    + now rewrite H.
  - intros H. simpl. unfold minPercent_as_specified, total, collected.
    rewrite (filter_checkLog_all _ _ H), (filter_checkLog_present _ _ H).
    reflexivity.
Qed.

End EvaluateFacts.

(** C4 as stated fails, on the input of the test [policy(50% batch and 50%
    system) fails with log required]: the one system witness has no log, so
    the role's witness set after the [LogRequired] filter is empty and the
    leaf as stated would hold, but the leaf does not hold and [Evaluate]
    answers [false], as the test expects. *)
Lemma MinPercent_not_vacuous_after_log_filter :
  let ps := [policy_test.system policy_test.systemWitnessURL false
               policy_test.witnessBytes] in
  List.filter (fun q => policy.checkLog true (proof.Witness_ q))
    (policy.witnessesOf config.RoleSystem ps) = [] /\
  policy.minPercent_as_specified true 50 config.RoleSystem ps = true /\
  policy.evaluate true ps (config.MinPercent 50 config.RoleSystem) = false /\
  policy.evaluate true ps (config.MinPercent 50 config.RoleBatch) = true /\
  policy_test.Evaluate policy_test.halfAndHalfLog ps = (false, None).
Proof. repeat split; vm_compute; reflexivity. Qed.

(** ** Package policy: selection *)
Section SelectFacts.
Import config proof policy.
Local Open Scope nat_scope.

















Section Plans.
Variables pool tot : Role -> nat.













End Plans.





End SelectFacts.

(** The expectations of [TestSelect], in the order of the test file. *)
Example TestSelect_expectations :
  let b1 := policy_test.b1 in
  let b2 := policy_test.b2 in
  let s1 := policy_test.s1 in
  let bU := policy_test.batchWitnessURL in
  let sU := policy_test.systemWitnessURL in
  let s2U := policy_test.systemWitness2URL in
  let five := policy_test.five in
  [ policy_test.Select "" [b1; s1] [];
    policy_test.Select ""
      [b1; s1; proof.mkWitness proof.WitnessTypeSystem bU false] [];
    policy_test.Select "" [s1] [];
    policy_test.Select
      "MinPercent(50,system) AND MinPercent(50,batch) LogRequired" five [];
    policy_test.Select "OutOf(2,system) AND OutOf(1,batch) LogRequired" five [];
    policy_test.Select policy_test.halfOrHalfLog five [];
    policy_test.Select policy_test.halfOrHalfLog [policy_test.S1] [];
    policy_test.Select "" [b1; s1] [s1];
    policy_test.Select "" [b1; b2; s1] [b1];
    policy_test.Select "OutOf(2,system) AND OutOf(1,batch) LogRequired"
      [policy_test.S1; policy_test.B1] [];
    policy_test.Select "OutOf(1,system) AND OutOf(2,batch) LogRequired"
      [policy_test.S1; policy_test.B1] [] ]
  = [ inr [bU; sU];
      inr [bU; sU; bU];
      inr [sU];
      inr [bU; sU; s2U];
      inr [bU; sU; s2U];
      inr [bU];
      inr [sU];
      inl "unable to select 1 witnesses from witness array of length 0";
      inl "unable to select 2 witnesses from witness array of length 1";
      inl "unable to select 2 witnesses from witness array of length 1";
      inl "unable to select 2 witnesses from witness array of length 1" ].
Proof. vm_compute. reflexivity. Qed.




(** ** Package httpsubscriber: further properties *)
Section ShovelFacts.
Import message gochan httpsubscriber shovel.
Context {Request : Type}.
Variable Verify : Request -> bool.
Variable VerifyRequest : Request -> bool * option string * option string.
Variable unmarshalMessage : Request -> Message + string.

Local Abbreviation exec' := (exec Verify VerifyRequest unmarshalMessage).
Local Abbreviation run' := (run Verify VerifyRequest unmarshalMessage).

(** Only a completed send into [pubChan] lengthens the pipeline; every other
    move leaves the sequence as it is. *)
Lemma exec_pipeline (l : Label Request) (y y' : System Request) :
  close_protocol y -> exec' l y = Some y' ->
  pipeline y' = (pipeline y ++ sends [l])%list.
Proof.
  intros (Hp & _ & _ & _ & _ & Hpub) Hexec.
  unfold exec in Hexec. rewrite Hp in Hexec.
  destruct y as [s p t hs dl pk]; simpl in *.
  destruct s as [? ? [pb pc pcl] [mb mc mcl] ? ?]; simpl in *; subst.
  destruct l; simpl in Hexec;
    unfold send, recv, close, full in Hexec; simpl in Hexec;
    split_tests Hexec; try discriminate;
    injection Hexec as <-; unfold pipeline, sends; simpl;
    repeat match goal with
           | H : RecvOk _ _ = RecvOk _ _ |- _ => injection H as <- <-
           | H : SendOk _ = SendOk _ |- _ => injection H as <-
           | H : Some _ = Some _ |- _ => injection H as <-
           | H : _ :: _ = _ |- _ => progress subst
           | H : _ = _ :: _ |- _ => progress subst
           end; simpl;
    rewrite ?app_nil_r, <- ?app_assoc; simpl; try reflexivity.
Qed.


Local Abbreviation hmove' := (hmove Verify VerifyRequest unmarshalMessage).

Lemma publish_check_None (st : lifecycle.State) :
  publish_check st = None <-> st = lifecycle.StateStarted.
Proof. unfold publish_check. destruct st; simpl; split; congruence. Qed.

(** What a move does to the handlers: nothing, a new handler at the end, or
    one handler changed as [hmove] says. *)
Lemma exec_handlers (l : Label Request) (y y' : System Request) :
  exec' l y = Some y' ->
  handlers y' = handlers y \/
  (exists r, l = LRequest r /\
     handlers y' = (handlers y
       ++ [mkHandler (HEntry r) http.newResponseWriter Pending false])%list) \/
  (exists i h h',
     handlers y !! i = Some h /\ handlers y' = <[i:=h']> (handlers y) /\
     hmove' y l i h h').
Proof.
  intros Hexec. unfold exec in Hexec.
  destruct (panicked y); [discriminate|].
  destruct l; simpl in Hexec.
  - injection Hexec as <-. right; left. eauto.
  - destruct (handlers y !! i) as [[[r| | |] w a c]|] eqn:Hi; try discriminate.
    destruct (prepare _ _ _ r) as [status|msg] eqn:Hprep.
    + injection Hexec as <-. right; right. do 3 eexists.
      split; [exact Hi|]. split; [reflexivity|]. now constructor.
    + destruct (publish_check (state (sub y))) eqn:Hcheck;
        injection Hexec as <-; right; right; do 3 eexists;
        (split; [exact Hi|]); (split; [reflexivity|]).
      * eapply hmove_not_started; [exact Hprep|].
        intros Hst. apply publish_check_None in Hst. congruence.
      * eapply hmove_checked; [exact Hprep|]. now apply publish_check_None.
  - destruct (handlers y !! i) as [[[|msg| |] w a c]|] eqn:Hi; try discriminate.
    destruct (send (pubChan (sub y)) i); try discriminate;
      injection Hexec as <-; [|now left].
    right; right. do 3 eexists. split; [exact Hi|]. split; [reflexivity|].
    constructor.
  - destruct (handlers y !! i) as [[[| |msg|] w a c]|] eqn:Hi; try discriminate.
    unfold respond, events_of in Hexec. simpl in Hexec.
    destruct (ready _ pick) eqn:Hready; [|discriminate].
    injection Hexec as <-. right; right. do 3 eexists.
    split; [exact Hi|]. split; [reflexivity|]. now constructor.
  - destruct (handlers y !! i) as [[p w a c]|] eqn:Hi; [|discriminate].
    injection Hexec as <-. right; right. do 3 eexists.
    split; [exact Hi|]. split; [reflexivity|]. constructor.
  - left. destruct (pub y); try discriminate.
    destruct (recv _); try discriminate. now injection Hexec as <-.
  - left. destruct (pub y); try discriminate.
    destruct (stopped _); [|discriminate].
    destruct (done _); now injection Hexec as <-.
  - left. destruct (pub y); try discriminate.
    destruct (send _ _); try discriminate; now injection Hexec as <-.
  - left. destruct (stp y), (state (sub y)); try discriminate;
      now injection Hexec as <-.
  - left. destruct (stp y); try discriminate.
    + destruct (stopped _); now injection Hexec as <-.
    + destruct (done _); [|discriminate]. now injection Hexec as <-.
    + destruct (close _); now injection Hexec as <-.
  - left. destruct (recv _); try discriminate. now injection Hexec as <-.
  - destruct (handlers y !! i) as [[p w a c]|] eqn:Hi; [|discriminate].
    destruct (existsb _ _) eqn:Hin; [|discriminate].
    injection Hexec as <-. right; right. do 3 eexists.
    split; [exact Hi|]. split; [reflexivity|]. constructor.
    apply existsb_exists in Hin as (x & Hx & Heq).
    apply Nat.eqb_eq in Heq. now subst.
  - destruct (handlers y !! i) as [[p w a c]|] eqn:Hi; [|discriminate].
    destruct (existsb _ _) eqn:Hin; [|discriminate].
    injection Hexec as <-. right; right. do 3 eexists.
    split; [exact Hi|]. split; [reflexivity|]. constructor.
    apply existsb_exists in Hin as (x & Hx & Heq).
    apply Nat.eqb_eq in Heq. now subst.
Qed.

(** The consumer's receipts only grow. *)
Lemma exec_delivered (l : Label Request) (y y' : System Request) (i : nat) :
  exec' l y = Some y' -> In i (delivered y) -> In i (delivered y').
Proof.
  intros Hexec Hin. unfold exec in Hexec.
  destruct y as [s p t hs dl pk]; simpl in *.
  destruct pk; [discriminate|].
  destruct l; simpl in Hexec; split_tests Hexec; try discriminate;
    injection Hexec as <-; simpl; auto.
  apply in_or_app. now left.
Qed.

(** The statuses the head of [handleMessage] can write. *)
Lemma prepare_status (r : Request) (status : Z) :
  prepare Verify VerifyRequest unmarshalMessage r = inl status ->
  status = 500 \/ status = 401 \/ status = 400.
Proof.
  unfold prepare, authenticate.
  destruct (Verify r).
  - destruct (unmarshalMessage r); intros H; inversion H. auto.
  - destruct (VerifyRequest r) as [[[|] actor] [err|]]; simpl;
      try (intros H; inversion H; now auto).
    destruct (unmarshalMessage r); intros H; inversion H. auto.
Qed.

Lemma hmove_one_header (y : System Request) (l : Label Request) (i : nat)
    (h h' : Handler Request) :
  hmove' y l i h h' -> one_header h -> one_header h'.
Proof.
  unfold one_header, handler_statuses.
  intros Hm. destruct Hm; simpl; intros Hh; try exact Hh; rewrite Hh.
  - match goal with
    | Hp : prepare _ _ _ _ = inl _ |- _ =>
        destruct (prepare_status _ _ Hp) as [->|[->| ->]]
    end; eexists; (split; [reflexivity|]); simpl; auto 10.
  - eexists. split; [reflexivity|]. simpl; auto 10.
  - eexists. split; [reflexivity|]. destruct pick; simpl; auto 10.
Qed.

Lemma one_header_exec (l : Label Request) (y y' : System Request) :
  exec' l y = Some y' ->
  Forall one_header (handlers y) -> Forall one_header (handlers y').
Proof.
  intros Hexec Hall.
  destruct (exec_handlers _ _ _ Hexec)
    as [-> | [(r & _ & ->) | (i & h & h' & Hi & -> & Hmove)]].
  - exact Hall.
  - apply Forall_app. split; [exact Hall|]. constructor; [|constructor].
    reflexivity.
  - apply Forall_insert; [exact Hall|].
    eapply hmove_one_header; [exact Hmove|].
    eapply Forall_lookup_1; eauto.
Qed.


Lemma hmove_acknowledged (y : System Request) (l : Label Request) (i : nat)
    (h h' : Handler Request) :
  hmove' y l i h h' ->
  ((h_ack h <> Pending -> In i (delivered y)) /\
   (In 200 (http.headers (h_w h)) -> h_ack h = Acked)) ->
  (h_ack h' <> Pending -> In i (delivered y)) /\
  (In 200 (http.headers (h_w h')) -> h_ack h' = Acked).
Proof.
  intros Hm. destruct Hm; simpl; intros [Hd H200]; (split; [|intros Hin]);
    auto; try (apply in_app_or in Hin as [Hin|[Hin|[]]]; [now auto|]).
  - match goal with
    | Hp : prepare _ _ _ _ = inl _ |- _ =>
        destruct (prepare_status _ _ Hp) as [->|[->| ->]]
    end; discriminate.
  - discriminate.
  - destruct pick; try discriminate. simpl in *.
    destruct a; congruence.
  - rewrite (H200 Hin). reflexivity.
  - rewrite (H200 Hin). reflexivity.
Qed.

Lemma acknowledged_exec (l : Label Request) (y y' : System Request) :
  exec' l y = Some y' ->
  acknowledged_only_if_delivered y -> acknowledged_only_if_delivered y'.
Proof.
  intros Hexec Hinv j hj Hj.
  assert (Hmono : forall i, In i (delivered y) -> In i (delivered y'))
    by (intros i; eapply exec_delivered; eauto).
  destruct (exec_handlers _ _ _ Hexec)
    as [Heq | [(r & _ & Heq) | (i & h & h' & Hi & Heq & Hmove)]];
    rewrite Heq in Hj.
  - destruct (Hinv j hj Hj). auto.
  - apply lookup_app_Some in Hj as [Hj|[_ Hj]].
    + destruct (Hinv j hj Hj). auto.
    + apply list_lookup_singleton_Some in Hj as [_ <-]. simpl.
      split; [congruence|intros []].
  - apply list_lookup_insert_Some in Hj as [(<- & <- & _)|[_ Hj]].
    + destruct (hmove_acknowledged _ _ _ _ _ Hmove (Hinv i h Hi)). auto.
    + destruct (Hinv j hj Hj). auto.
Qed.

Lemma hmove_pc (y : System Request) (l : Label Request) (i : nat)
    (h h' : Handler Request) :
  hmove' y l i h h' ->
  (l = LSend i /\ (exists msg, h_pc h = HSend msg)
   /\ exists msg, h_pc h' = HRespond msg) \/
  (sends [l] = [] /\
   ((exists msg, h_pc h = HRespond msg) \/ h_pc h = HReturned ->
    (exists msg, h_pc h' = HRespond msg) \/ h_pc h' = HReturned)).
Proof.
  intros Hm. destruct Hm; simpl;
    first [ left; split; [reflexivity|]; split; eexists; reflexivity
          | right; split; [reflexivity|]; auto;
            intros [[m Hm]|Hm]; discriminate ].
Qed.

Lemma sent_once_exec (l : Label Request) (y y' : System Request) :
  close_protocol y -> exec' l y = Some y' -> sent_once y -> sent_once y'.
Proof.
  intros Hcp Hexec [Hnd Hsent].
  pose proof (exec_pipeline _ _ _ Hcp Hexec) as Hpipe.
  unfold sent_once. rewrite Hpipe.
  destruct (exec_handlers _ _ _ Hexec)
    as [Heq | [(r & -> & Heq) | (i & h & h' & Hi & Heq & Hmove)]].
  - assert (Hl : sends [l] = []).
    { destruct l; try reflexivity. exfalso.
      destruct Hcp as (Hp & _ & _ & _ & _ & Hpub).
      unfold exec in Hexec. rewrite Hp in Hexec. simpl in Hexec.
      destruct (handlers y !! i) as [[[| | |] w a c]|] eqn:Hi;
        try discriminate.
      unfold send in Hexec. rewrite Hpub in Hexec.
      destruct (full _); [discriminate|]. injection Hexec as <-.
      simpl in Heq. apply (f_equal (fun hs => hs !! i)) in Heq.
      rewrite list_lookup_insert_eq in Heq
        by (eapply lookup_lt_Some; eauto).
      congruence. }
    rewrite Hl, app_nil_r, Heq. auto.
  - simpl. rewrite app_nil_r. split; [exact Hnd|].
    intros i Hin. destruct (Hsent i Hin) as (h & Hh & Hpc).
    exists h. rewrite Heq. split; [|exact Hpc].
    now apply lookup_app_l_Some.
  - destruct (hmove_pc _ _ _ _ _ Hmove)
      as [(-> & [m Hpc] & Hpc')|[Hl Hkeep]].
    + simpl.
      assert (Hfresh : ~ In i (pipeline y)).
      { intros Hin. destruct (Hsent i Hin) as (h0 & Hh0 & Hpc0).
        rewrite Hi in Hh0. injection Hh0 as <-.
        destruct Hpc0 as [[m0 Hpc0]|Hpc0]; congruence. }
      split.
      * apply NoDup_ListNoDup, NoDup_app.
        split; [now apply NoDup_ListNoDup|].
        split; [|apply NoDup_singleton].
        intros x Hx Hx'. apply list_elem_of_singleton in Hx'. subst.
        apply Hfresh. now apply list_elem_of_In.
      * intros j Hin. apply in_app_or in Hin as [Hin|[<-|[]]].
        -- destruct (Hsent j Hin) as (h0 & Hh0 & Hpc0).
           exists h0. split; [|exact Hpc0]. rewrite Heq.
           rewrite list_lookup_insert_ne; [exact Hh0|].
           intros ->. contradiction.
        -- exists h'. split; [|now left]. rewrite Heq.
           apply list_lookup_insert_eq. eapply lookup_lt_Some; eauto.
    + rewrite Hl, app_nil_r. split; [exact Hnd|].
      intros j Hin. destruct (Hsent j Hin) as (h0 & Hh0 & Hpc0).
      rewrite Heq. destruct (decide (i = j)) as [<-|Hne].
      * exists h'. split.
        -- apply list_lookup_insert_eq. eapply lookup_lt_Some; eauto.
        -- apply Hkeep. rewrite Hi in Hh0. injection Hh0 as <-. exact Hpc0.
      * exists h0. split; [|exact Hpc0].
        now rewrite list_lookup_insert_ne.
Qed.


(** An invariant of the moves holds after every schedule. *)
Lemma run_invariant (Inv : System Request -> Prop) :
  (forall l y y', close_protocol y -> exec' l y = Some y' -> Inv y -> Inv y') ->
  forall ls y y', close_protocol y -> run' ls y = Some y' -> Inv y -> Inv y'.
Proof.
  intros Hstep ls. induction ls as [|l ls IH]; intros y y' Hcp Hrun Hinv;
    simpl in Hrun.
  - now injection Hrun as <-.
  - destruct (exec' l y) as [y1|] eqn:Hexec; [|discriminate].
    eapply IH; [|exact Hrun|].
    + eapply close_protocol_exec; eauto.
    + eapply Hstep; eauto.
Qed.

Lemma run_sends (ls : list (Label Request)) (y y' : System Request) :
  close_protocol y -> run' ls y = Some y' ->
  pipeline y' = (pipeline y ++ sends ls)%list.
Proof.
  revert y. induction ls as [|l ls IH]; intros y Hcp Hrun; simpl in Hrun.
  - injection Hrun as <-. symmetry. apply app_nil_r.
  - destruct (exec' l y) as [y1|] eqn:Hexec; [|discriminate].
    rewrite (IH y1); [|eapply close_protocol_exec; eauto|exact Hrun].
    rewrite (exec_pipeline _ _ _ Hcp Hexec), <- app_assoc.
    unfold sends. simpl. now rewrite app_nil_r.
Qed.

Lemma pipeline_init (c : Config) (s : Subscriber) :
  New c = Some s -> pipeline (@init Request s) = [].
Proof.
  unfold New. intros Hnew. destruct (_ <? 0); [discriminate|].
  now injection Hnew as <-.
Qed.

Lemma pipeline_after_New (c : Config) (s : Subscriber)
    (ls : list (Label Request)) (y : System Request) :
  New c = Some s -> run' ls (init s) = Some y -> pipeline y = sends ls.
Proof.
  intros Hnew Hrun.
  rewrite (run_sends _ _ _ (New_close_protocol _ _ Hnew) Hrun).
  now rewrite (pipeline_init _ _ Hnew).
Qed.

(** X3. Order of delivery. In every execution the messages the consumer has
    received, those waiting in [msgChan], the one the publisher holds and
    those waiting in [pubChan] are, in this order, exactly the messages
    whose sends into [pubChan] completed, in the order of these sends; and
    no message occurs twice. So messages reach the consumer in arrival
    order, none is skipped and none is delivered twice. *)
Theorem messages_delivered_in_arrival_order
    (c : Config) (s : Subscriber) (ls : list (Label Request))
    (y : System Request) :
  New c = Some s ->
  run' ls (init s) = Some y ->
  pipeline y = sends ls /\
  List.NoDup (sends ls) /\
  exists waiting, sends ls = (delivered y ++ waiting)%list.
Proof.
  intros Hnew Hrun.
  pose proof (New_close_protocol _ _ Hnew (Request := Request)) as Hcp.
  pose proof (pipeline_after_New _ _ _ _ Hnew Hrun) as Hpipe.
  split; [exact Hpipe|]. split.
  - rewrite <- Hpipe.
    assert (Hso : sent_once y); [|now destruct Hso].
    refine (run_invariant sent_once _ ls (init s) y Hcp Hrun _).
    + intros l y0 y1 Hcp0 Hexec. exact (sent_once_exec _ _ _ Hcp0 Hexec).
    + split; rewrite (pipeline_init _ _ Hnew); [constructor|intros i []].
  - rewrite <- Hpipe. unfold pipeline. eauto.
Qed.

(** The buffers stay within their capacity. *)
Lemma bounded_exec (l : Label Request) (y y' : System Request) :
  exec' l y = Some y' ->
  (length (buf (pubChan (sub y))) <= cap (pubChan (sub y)) /\
   length (buf (msgChan (sub y))) <= cap (msgChan (sub y)))%nat ->
  (length (buf (pubChan (sub y'))) <= cap (pubChan (sub y')) /\
   length (buf (msgChan (sub y'))) <= cap (msgChan (sub y')))%nat.
Proof.
  intros Hexec Hb. unfold exec in Hexec.
  destruct y as [s p t hs dl pk]; simpl in *.
  destruct pk; [discriminate|].
  destruct s as [? ? [pb pc pcl] [mb mc mcl] ? ?]; simpl in *.
  destruct l; simpl in Hexec;
    unfold send, recv, close, full in Hexec; simpl in Hexec;
    split_tests Hexec; try discriminate;
    injection Hexec as <-; simpl;
    repeat match goal with
           | H : RecvOk _ _ = RecvOk _ _ |- _ => injection H as <- <-
           | H : SendOk _ = SendOk _ |- _ => injection H as <-
           | H : Some _ = Some _ |- _ => injection H as <-
           | H : (_ <=? _)%nat = false |- _ => apply Nat.leb_gt in H
           | H : _ :: _ = _ |- _ => progress subst
           | H : _ = _ :: _ |- _ => progress subst
           end; simpl in *; rewrite ?length_app; simpl; lia.
Qed.

(** X4. Back-pressure. In every execution neither [pubChan] nor [msgChan]
    ever holds more than [BufferSize] messages (100 when the configuration
    says 0). *)
Theorem buffers_never_exceed_BufferSize
    (c : Config) (s : Subscriber) (ls : list (Label Request))
    (y : System Request) :
  New c = Some s ->
  run' ls (init s) = Some y ->
  (length (buf (pubChan (sub y)))
     <= Z.to_nat (if (BufferSize c =? 0)%Z then 100%Z else BufferSize c) /\
   length (buf (msgChan (sub y)))
     <= Z.to_nat (if (BufferSize c =? 0)%Z then 100%Z else BufferSize c))%nat.
Proof.
  intros Hnew Hrun.
  pose proof (New_close_protocol _ _ Hnew (Request := Request)) as Hcp.
  assert (Hb : (length (buf (pubChan (sub y))) <= cap (pubChan (sub y)) /\
                length (buf (msgChan (sub y))) <= cap (msgChan (sub y)))%nat).
  { refine (run_invariant
             (fun y => (length (buf (pubChan (sub y))) <= cap (pubChan (sub y)) /\
                        length (buf (msgChan (sub y))) <= cap (msgChan (sub y)))%nat)
             _ ls (init s) y Hcp Hrun _).
    - intros l y0 y1 _ Hexec. exact (bounded_exec _ _ _ Hexec).
    - unfold New in Hnew. destruct (_ <? 0); [discriminate|].
      injection Hnew as <-. simpl. lia. }
  destruct (run_cap Verify VerifyRequest unmarshalMessage _ _ _ Hrun) as [Hc1 Hc2].
  unfold New, defaultBufferSize in Hnew.
  destruct (_ <? 0); [discriminate|]. injection Hnew as <-.
  simpl in Hc1, Hc2. rewrite Hc1, Hc2 in Hb. exact Hb.
Qed.

(** X5. One header per request. In every execution a handler that is still
    running has written no header, and a handler that has returned has
    written exactly one, which is 200, 400, 401, 500 or 503. *)
Theorem handler_writes_exactly_one_header
    (c : Config) (s : Subscriber) (ls : list (Label Request))
    (y : System Request) (i : nat) (h : Handler Request) :
  New c = Some s ->
  run' ls (init s) = Some y ->
  handlers y !! i = Some h ->
  (h_pc h = HReturned ->
     exists status, http.headers (h_w h) = [status] /\
                    In status [200; 400; 401; 500; 503]) /\
  (h_pc h <> HReturned -> http.headers (h_w h) = []).
Proof.
  intros Hnew Hrun Hi.
  pose proof (New_close_protocol _ _ Hnew (Request := Request)) as Hcp.
  assert (Hall : Forall one_header (handlers y)).
  { refine (run_invariant (fun y => Forall one_header (handlers y))
              _ ls (init s) y Hcp Hrun _).
    - intros l y0 y1 _ Hexec. exact (one_header_exec _ _ _ Hexec).
    - constructor. }
  pose proof (Forall_lookup_1 _ _ _ _ Hall Hi) as Hone.
  unfold one_header in Hone. split; intros Hpc.
  - now rewrite Hpc in Hone.
  - destruct (h_pc h); try exact Hone. congruence.
Qed.



(** Once the publisher has returned nothing is received from [pubChan]. *)
Lemma returned_exec (l : Label Request) (y y' : System Request) :
  close_protocol y -> pub y = PubReturned ->
  full (pubChan (sub y)) = true ->
  exec' l y = Some y' ->
  pub y' = PubReturned /\ pubChan (sub y') = pubChan (sub y).
Proof.
  intros (Hp & _ & _ & _ & _ & Hpub) Hret Hfull Hexec.
  unfold exec in Hexec. rewrite Hp in Hexec.
  destruct y as [s p t hs dl pk]; simpl in *. subst p.
  destruct s as [? ? [pb pc pcl] [mb mc mcl] ? ?]; simpl in *; subst.
  unfold full in Hfull. simpl in Hfull.
  destruct l; simpl in Hexec;
    unfold send, recv, close, full in Hexec; simpl in Hexec;
    rewrite ?Hfull in Hexec;
    split_tests Hexec; try discriminate;
    injection Hexec as <-; simpl; auto.
Qed.

Lemma full_send_blocks (y : System Request) (i : nat) :
  close_protocol y -> full (pubChan (sub y)) = true ->
  exec' (LSend i) y = None.
Proof.
  intros (Hp & _ & _ & _ & _ & Hpub) Hfull.
  unfold exec. rewrite Hp. simpl.
  destruct (handlers y !! i) as [[[| | |] w a c]|]; try reflexivity.
  unfold send. now rewrite Hpub, Hfull.
Qed.

(** A schedule run after another. *)
Lemma run_append (ls1 ls2 : list (Label Request)) (y0 y1 y2 : System Request) :
  run' ls1 y0 = Some y1 -> run' ls2 y1 = Some y2 ->
  run' (ls1 ++ ls2) y0 = Some y2.
Proof.
  revert y0. induction ls1 as [|l ls IH]; intros y0; simpl.
  - now intros [= ->].
  - destruct (exec' l y0) as [y|]; [apply IH|discriminate].
Qed.

(** A handler that waits to send keeps waiting under every move but its
    own send. *)
Lemma hmove_waiting (y : System Request) (l : Label Request) (i : nat)
    (h h' : Handler Request) (msg : Message) :
  hmove' y l i h h' -> h_pc h = HSend msg -> l <> LSend i ->
  h_pc h' = HSend msg.
Proof.
  intros Hm. destruct Hm; simpl; intros Hpc Hl;
    try discriminate; try assumption.
  congruence.
Qed.

Lemma waiting_exec (l : Label Request) (y y' : System Request) (i : nat)
    (h : Handler Request) (msg : Message) :
  close_protocol y -> full (pubChan (sub y)) = true ->
  exec' l y = Some y' ->
  handlers y !! i = Some h -> h_pc h = HSend msg ->
  exists h', handlers y' !! i = Some h' /\ h_pc h' = HSend msg.
Proof.
  intros Hcp Hfull Hexec Hi Hpc.
  destruct (exec_handlers _ _ _ Hexec)
    as [Hsame|[(r & _ & Happ)|(j & hj & hj' & Hj & Hupd & Hmove)]].
  - exists h. now rewrite Hsame.
  - exists h. split; [|assumption]. rewrite Happ.
    apply lookup_app_l_Some. assumption.
  - rewrite Hupd. destruct (decide (j = i)) as [->|Hne].
    + exists hj'. split.
      * apply list_lookup_insert_eq. now apply lookup_lt_Some with hj.
      * assert (hj = h) by congruence. subst hj.
        apply (hmove_waiting _ _ _ _ _ _ Hmove Hpc).
        intros ->. rewrite (full_send_blocks _ _ Hcp Hfull) in Hexec.
        discriminate.
    + exists h. split; [|assumption].
      now rewrite list_lookup_insert_ne.
Qed.

(** X7. A sender blocked at stop stays blocked. In a state the subscriber
    can reach in which the publisher has returned and [pubChan] is full,
    whatever happens afterwards [pubChan] keeps its content and no handler
    can complete its send into it: a handler that waits in
    [s.pubChan <- msg] of [publish] waits there in every later state, and
    has written no header. Only the publisher receives from [pubChan], and
    the send does not watch [stopped]. *)
Theorem blocked_sender_never_wakes_after_publisher_returned
    (c : Config) (s : Subscriber) (before after : list (Label Request))
    (y y' : System Request) (i : nat) (h : Handler Request) (msg : Message) :
  New c = Some s ->
  run' before (init s) = Some y ->
  pub y = PubReturned ->
  full (pubChan (sub y)) = true ->
  handlers y !! i = Some h ->
  h_pc h = HSend msg ->
  run' after y = Some y' ->
  pub y' = PubReturned /\
  pubChan (sub y') = pubChan (sub y) /\
  exec' (LSend i) y' = None /\
  exists h', handlers y' !! i = Some h' /\ h_pc h' = HSend msg /\
             http.headers (h_w h') = [].
Proof.
  intros Hnew Hbefore Hret Hfull Hi Hpc Hafter.
  pose proof (New_close_protocol _ _ Hnew (Request := Request)) as Hcp0.
  pose proof (close_protocol_run Verify VerifyRequest unmarshalMessage _ _ _
                Hcp0 Hbefore) as Hcp.
  assert (Hinv : (pub y' = PubReturned /\ pubChan (sub y') = pubChan (sub y)) /\
                 exists h', handlers y' !! i = Some h' /\ h_pc h' = HSend msg).
  { refine (run_invariant
              (fun z => (pub z = PubReturned /\ pubChan (sub z) = pubChan (sub y)) /\
                        exists h', handlers z !! i = Some h' /\ h_pc h' = HSend msg)
              _ after y y' Hcp Hafter _); [|split; [now split|eauto]].
    intros l y0 y1 Hcp1 Hexec [[Hr Hc] (h0 & Hi0 & Hpc0)].
    assert (Hfull0 : full (pubChan (sub y0)) = true) by now rewrite Hc.
    split.
    - destruct (returned_exec l y0 y1 Hcp1 Hr Hfull0 Hexec) as [Hr1 Hc1].
      split; congruence.
    - exact (waiting_exec _ _ _ _ _ _ Hcp1 Hfull0 Hexec Hi0 Hpc0). }
  destruct Hinv as [[Hr Hc] (h' & Hi' & Hpc')].
  assert (Hcp' : close_protocol y').
  { eapply close_protocol_run; eauto. }
  split; [exact Hr|]. split; [exact Hc|]. split.
  - apply full_send_blocks; [exact Hcp'|now rewrite Hc].
  - exists h'. split; [exact Hi'|]. split; [exact Hpc'|].
    assert (Hall : Forall one_header (handlers y')).
    { pose proof (run_append _ _ _ _ _ Hbefore Hafter) as Hrun.
      refine (run_invariant (fun y => Forall one_header (handlers y))
                _ (before ++ after)%list (init s) y' Hcp0 Hrun _).
      - intros l y0 y1 _ Hexec. exact (one_header_exec _ _ _ Hexec).
      - constructor. }
    pose proof (Forall_lookup_1 _ _ _ _ Hall Hi') as Hone.
    unfold one_header in Hone. now rewrite Hpc' in Hone.
Qed.

(** Once the publisher has returned, [pubChan] only grows. *)
Lemma stranded_exec (l : Label Request) (y y' : System Request) :
  close_protocol y -> pub y = PubReturned ->
  exec' l y = Some y' ->
  pub y' = PubReturned /\
  buf (pubChan (sub y')) = (buf (pubChan (sub y)) ++ sends [l])%list.
Proof.
  intros (Hp & _ & _ & _ & _ & Hpub) Hret Hexec.
  unfold exec in Hexec. rewrite Hp in Hexec.
  destruct y as [s p t hs dl pk]; simpl in *. subst p.
  destruct s as [? ? [pb pc pcl] [mb mc mcl] ? ?]; simpl in *; subst.
  destruct l; simpl in Hexec;
    unfold send, recv, close, full in Hexec; simpl in Hexec;
    split_tests Hexec; try discriminate;
    injection Hexec as <-; unfold sends; simpl;
    repeat match goal with
           | H : SendOk _ = SendOk _ |- _ => injection H as <-
           end;
    simpl; rewrite ?app_nil_r; auto.
Qed.

Lemma stranded_run (ls : list (Label Request)) (y y' : System Request) :
  close_protocol y -> pub y = PubReturned ->
  run' ls y = Some y' ->
  buf (pubChan (sub y')) = (buf (pubChan (sub y)) ++ sends ls)%list.
Proof.
  revert y. induction ls as [|l ls IH]; intros y Hcp Hret; simpl.
  - intros [= <-]. unfold sends. simpl. now rewrite app_nil_r.
  - destruct (exec' l y) as [y1|] eqn:Hexec; [|discriminate].
    intros Hrun.
    destruct (stranded_exec _ _ _ Hcp Hret Hexec) as [Hret1 Hbuf1].
    rewrite (IH y1 (close_protocol_exec Verify VerifyRequest unmarshalMessage
                      _ _ _ Hcp Hexec) Hret1 Hrun).
    rewrite Hbuf1, <- app_assoc. f_equal.
    unfold sends. simpl. now rewrite app_nil_r.
Qed.

(** X23. Messages stranded by a stop. A message that is in [pubChan] when
    the publisher returns is never received by the consumer, whatever
    happens afterwards, and its handler never answers 200: the publisher
    does not drain [pubChan] before it returns, and [stop] does not either. *)
Theorem queued_messages_are_not_delivered_after_stop
    (c : Config) (s : Subscriber) (before after : list (Label Request))
    (y y' : System Request) (i : nat) :
  New c = Some s ->
  run' before (init s) = Some y ->
  pub y = PubReturned ->
  In i (buf (pubChan (sub y))) ->
  run' after y = Some y' ->
  ~ In i (delivered y') /\
  forall h, handlers y' !! i = Some h -> ~ In 200 (http.headers (h_w h)).
Proof.
  intros Hnew Hbefore Hret Hin Hafter.
  pose proof (New_close_protocol _ _ Hnew (Request := Request)) as Hcp0.
  pose proof (close_protocol_run Verify VerifyRequest unmarshalMessage _ _ _
                Hcp0 Hbefore) as Hcp.
  pose proof (run_append _ _ _ _ _ Hbefore Hafter) as Hrun.
  assert (Hso : sent_once y').
  { refine (run_invariant sent_once _ (before ++ after)%list (init s) y' Hcp0 Hrun _).
    - intros l y0 y1 Hcp1 Hexec. exact (sent_once_exec _ _ _ Hcp1 Hexec).
    - split; rewrite (pipeline_init _ _ Hnew); [constructor|intros j []]. }
  destruct Hso as [Hnd _].
  assert (Hin' : In i (buf (pubChan (sub y')))).
  { rewrite (stranded_run _ _ _ Hcp Hret Hafter). apply in_or_app. now left. }
  assert (Hnot : ~ In i (delivered y')).
  { intros Hd. unfold pipeline in Hnd.
    apply NoDup_ListNoDup in Hnd. apply NoDup_app in Hnd as (_ & Hdis & _).
    apply (Hdis i); [now apply list_elem_of_In|].
    apply list_elem_of_In. apply in_or_app. right.
    apply in_or_app. right. exact Hin'. }
  split; [exact Hnot|].
  intros h Hi H200.
  assert (Hinv : acknowledged_only_if_delivered y').
  { refine (run_invariant acknowledged_only_if_delivered
              _ (before ++ after)%list (init s) y' Hcp0 Hrun _).
    - intros l y0 y1 _ Hexec. exact (acknowledged_exec _ _ _ Hexec).
    - intros j hj Hj. discriminate. }
  destruct (Hinv i h Hi) as [Hd Ha].
  apply Hnot, Hd. rewrite (Ha H200). discriminate.
Qed.

(** X1. Rejections come before the state of the service. A request whose
    token is not accepted and whose signature check reports an error is
    answered 500; one whose signature is not valid is answered 401; an
    authenticated request whose body does not unmarshal is answered 400. In
    the three cases the subscriber is left as it was (nothing is queued) and
    the answer does not depend on whether the service is started. *)
Theorem handleMessage_rejects_before_publish
    (s : Subscriber) (id : nat) (r : Request) (ev : Events)
    (pick : SelectCase) (w : http.ResponseWriter) :
  (Verify r = false -> snd (VerifyRequest r) <> None ->
     handleMessage Verify VerifyRequest unmarshalMessage s id r ev pick w
     = Returned s (http.WriteHeader w 500)) /\
  (Verify r = false -> snd (VerifyRequest r) = None ->
   fst (fst (VerifyRequest r)) = false ->
     handleMessage Verify VerifyRequest unmarshalMessage s id r ev pick w
     = Returned s (http.WriteHeader w 401)) /\
  (Verify r = true \/
   (snd (VerifyRequest r) = None /\ fst (fst (VerifyRequest r)) = true) ->
   (exists e, unmarshalMessage r = inr e) ->
     handleMessage Verify VerifyRequest unmarshalMessage s id r ev pick w
     = Returned s (http.WriteHeader w 400)).
Proof.
  unfold handleMessage, prepare, authenticate.
  destruct (VerifyRequest r) as [[verified actor] err]; simpl.
  split; [|split].
  - intros -> Herr. destruct err; [now destruct verified|congruence].
  - intros -> -> ->. reflexivity.
  - intros [-> |[-> ->]] [e ->]; [reflexivity|].
    destruct (Verify r); reflexivity.
Qed.

(** X2. The actor IRI in the metadata. For a request whose body unmarshals
    to [m0]: with an accepted token the message to publish is [m0] as it
    is, whatever metadata the request carried; with a verified signature of
    actor [a] it is [m0] with the key [actor-iri] set to [a] (replacing a
    value the request carried) and every other key as in [m0]. *)
Theorem prepare_records_actor_IRI (r : Request) (m0 : Message) :
  unmarshalMessage r = inl m0 ->
  (Verify r = true ->
     prepare Verify VerifyRequest unmarshalMessage r = inr m0) /\
  (Verify r = false ->
   forall a, VerifyRequest r = (true, Some a, None) ->
     exists msg,
       prepare Verify VerifyRequest unmarshalMessage r = inr msg /\
       UUID msg = UUID m0 /\ Payload msg = Payload m0 /\
       Metadata msg !! ActorIRIKey = Some a /\
       forall k, k <> ActorIRIKey -> Metadata msg !! k = Metadata m0 !! k).
Proof.
  intros Hbody. unfold prepare, authenticate. split.
  - intros ->. now rewrite Hbody.
  - intros -> a ->. rewrite Hbody. eexists. split; [reflexivity|]. simpl.
    repeat split.
    + apply lookup_insert_eq.
    + intros k Hk. now apply lookup_insert_ne.
Qed.

End ShovelFacts.

(** Two requests whose handlers send in the opposite order: the messages
    enter the pipeline as 1, 0 and message 1 is the one delivered. *)
Lemma messages_delivered_in_arrival_order_witness :
  shovel.pipeline
    (subscriber_example.after shovel_example.overtaking subscriber_example.started)
  = shovel.sends shovel_example.overtaking /\
  List.NoDup (shovel.sends shovel_example.overtaking) /\
  exists waiting,
    shovel.sends shovel_example.overtaking
    = (httpsubscriber.delivered
         (subscriber_example.after shovel_example.overtaking
            subscriber_example.started) ++ waiting)%list.
Proof.
  exact (messages_delivered_in_arrival_order
           subscriber_example.Verify subscriber_example.VerifyRequest
           subscriber_example.unmarshalMessage
           subscriber_example.inbox subscriber_example.started
           shovel_example.overtaking
           (subscriber_example.after shovel_example.overtaking
              subscriber_example.started)
           eq_refl eq_refl).
Defined.

(** With [BufferSize] 1 a second send is not possible, and the buffers hold
    at most one message. *)
Lemma buffers_never_exceed_BufferSize_witness :
  (length (gochan.buf (httpsubscriber.pubChan (httpsubscriber.sub
     (subscriber_example.after shovel_example.closed_under_sender
        subscriber_example.started_narrow)))) <= 1 /\
   length (gochan.buf (httpsubscriber.msgChan (httpsubscriber.sub
     (subscriber_example.after shovel_example.closed_under_sender
        subscriber_example.started_narrow)))) <= 1)%nat.
Proof.
  exact (buffers_never_exceed_BufferSize
           subscriber_example.Verify subscriber_example.VerifyRequest
           subscriber_example.unmarshalMessage
           subscriber_example.narrow subscriber_example.started_narrow
           shovel_example.closed_under_sender
           (subscriber_example.after shovel_example.closed_under_sender
              subscriber_example.started_narrow)
           eq_refl eq_refl).
Defined.

(** The handler that returned wrote the one header 200. *)
Lemma handler_writes_exactly_one_header_witness :
  exists status,
    http.headers (http.mkResponseWriter [200] "") = [status] /\
    In status [200; 400; 401; 500; 503].
Proof.
  exact (proj1 (handler_writes_exactly_one_header
                  subscriber_example.Verify subscriber_example.VerifyRequest
                  subscriber_example.unmarshalMessage
                  subscriber_example.inbox subscriber_example.started
                  shovel_example.overtaking
                  (subscriber_example.after shovel_example.overtaking
                     subscriber_example.started)
                  1%nat
                  (httpsubscriber.mkHandler httpsubscriber.HReturned
                     (http.mkResponseWriter [200] "") message.Acked false)
                  eq_refl eq_refl eq_refl) eq_refl).
Defined.


(** The service is closed while handler 1 waits to send into the full
    [pubChan]: after [stop] has ended and the request is cancelled, the
    handler still cannot send. *)
Lemma blocked_sender_never_wakes_witness :
  httpsubscriber.pub
    (subscriber_example.after
       (shovel_example.closed_under_sender ++ shovel_example.stop_ends)%list
       subscriber_example.started_narrow) = httpsubscriber.PubReturned /\
  httpsubscriber.pubChan (httpsubscriber.sub
    (subscriber_example.after
       (shovel_example.closed_under_sender ++ shovel_example.stop_ends)%list
       subscriber_example.started_narrow))
  = httpsubscriber.pubChan (httpsubscriber.sub
      (subscriber_example.after shovel_example.closed_under_sender
         subscriber_example.started_narrow)) /\
  httpsubscriber.exec subscriber_example.Verify subscriber_example.VerifyRequest
    subscriber_example.unmarshalMessage (httpsubscriber.LSend 1)
    (subscriber_example.after
       (shovel_example.closed_under_sender ++ shovel_example.stop_ends)%list
       subscriber_example.started_narrow) = None /\
  exists h',
    httpsubscriber.handlers
      (subscriber_example.after
         (shovel_example.closed_under_sender ++ shovel_example.stop_ends)%list
         subscriber_example.started_narrow) !! 1%nat = Some h' /\
    httpsubscriber.h_pc h'
    = httpsubscriber.HSend (message.mkMessage "uuid" "payload" ∅) /\
    http.headers (httpsubscriber.h_w h') = [].
Proof.
  exact (blocked_sender_never_wakes_after_publisher_returned
           subscriber_example.Verify subscriber_example.VerifyRequest
           subscriber_example.unmarshalMessage
           subscriber_example.narrow subscriber_example.started_narrow
           shovel_example.closed_under_sender shovel_example.stop_ends
           (subscriber_example.after shovel_example.closed_under_sender
              subscriber_example.started_narrow)
           (subscriber_example.after
              (shovel_example.closed_under_sender ++ shovel_example.stop_ends)%list
              subscriber_example.started_narrow)
           1%nat
           (httpsubscriber.mkHandler
              (httpsubscriber.HSend (message.mkMessage "uuid" "payload" ∅))
              http.newResponseWriter message.Pending false)
           (message.mkMessage "uuid" "payload" ∅)
           eq_refl eq_refl eq_refl eq_refl eq_refl eq_refl eq_refl).
Defined.

(** Message 0 is in [pubChan] when the publisher returns: it is not
    delivered, and handler 0 does not answer 200. *)
Lemma queued_messages_are_not_delivered_witness :
  ~ In 0%nat
      (httpsubscriber.delivered
         (subscriber_example.after
            (shovel_example.closed_under_sender ++ shovel_example.stop_ends)%list
            subscriber_example.started_narrow)) /\
  forall h,
    httpsubscriber.handlers
      (subscriber_example.after
         (shovel_example.closed_under_sender ++ shovel_example.stop_ends)%list
         subscriber_example.started_narrow) !! 0%nat = Some h ->
    ~ In 200 (http.headers (httpsubscriber.h_w h)).
Proof.
  exact (queued_messages_are_not_delivered_after_stop
           subscriber_example.Verify subscriber_example.VerifyRequest
           subscriber_example.unmarshalMessage
           subscriber_example.narrow subscriber_example.started_narrow
           shovel_example.closed_under_sender shovel_example.stop_ends
           (subscriber_example.after shovel_example.closed_under_sender
              subscriber_example.started_narrow)
           (subscriber_example.after
              (shovel_example.closed_under_sender ++ shovel_example.stop_ends)%list
              subscriber_example.started_narrow)
           0%nat eq_refl eq_refl eq_refl (or_introl eq_refl) eq_refl).
Defined.

(** The three rejections, on a stopped subscriber. *)
Lemma handleMessage_rejects_before_publish_witness :
  subscriber_example.handleMessage
    (httpsubscriber.sub (subscriber_example.after subscriber_example.deliver_and_close
                           subscriber_example.started))
    7%nat shovel_example.check_fails subscriber_example.no_event
    httpsubscriber.CaseStopped (http.mkResponseWriter [] "")
  = httpsubscriber.Returned
      (httpsubscriber.sub (subscriber_example.after subscriber_example.deliver_and_close
                             subscriber_example.started))
      (http.mkResponseWriter [500] "") /\
  subscriber_example.handleMessage subscriber_example.started
    7%nat shovel_example.forged subscriber_example.no_event
    httpsubscriber.CaseStopped (http.mkResponseWriter [] "")
  = httpsubscriber.Returned subscriber_example.started
      (http.mkResponseWriter [401] "") /\
  subscriber_example.handleMessage subscriber_example.started
    7%nat shovel_example.unreadable subscriber_example.no_event
    httpsubscriber.CaseStopped (http.mkResponseWriter [] "")
  = httpsubscriber.Returned subscriber_example.started
      (http.mkResponseWriter [400] "").
Proof.
  split; [|split].
  - refine (proj1 (handleMessage_rejects_before_publish
                     subscriber_example.Verify subscriber_example.VerifyRequest
                     subscriber_example.unmarshalMessage
                     _ 7%nat shovel_example.check_fails subscriber_example.no_event
                     httpsubscriber.CaseStopped (http.mkResponseWriter [] ""))
                  eq_refl _).
    discriminate.
  - exact (proj1 (proj2 (handleMessage_rejects_before_publish
                     subscriber_example.Verify subscriber_example.VerifyRequest
                     subscriber_example.unmarshalMessage
                     subscriber_example.started 7%nat shovel_example.forged
                     subscriber_example.no_event
                     httpsubscriber.CaseStopped (http.mkResponseWriter [] "")))
                  eq_refl eq_refl eq_refl).
  - exact (proj2 (proj2 (handleMessage_rejects_before_publish
                     subscriber_example.Verify subscriber_example.VerifyRequest
                     subscriber_example.unmarshalMessage
                     subscriber_example.started 7%nat shovel_example.unreadable
                     subscriber_example.no_event
                     httpsubscriber.CaseStopped (http.mkResponseWriter [] "")))
                  (or_introl eq_refl)
                  (ex_intro _ "unable to read the body" eq_refl)).
Defined.

(** The signed request: the message carries the actor's IRI. *)
Lemma prepare_records_actor_IRI_witness :
  exists msg,
    httpsubscriber.prepare subscriber_example.Verify
      subscriber_example.VerifyRequest subscriber_example.unmarshalMessage
      subscriber_example.signed = inr msg /\
    message.UUID msg = "uuid" /\ message.Payload msg = "payload" /\
    message.Metadata msg !! httpsubscriber.ActorIRIKey
    = Some "https://alice.example/services/orb" /\
    forall k, k <> httpsubscriber.ActorIRIKey ->
      message.Metadata msg !! k = (∅ : gmap string string) !! k.
Proof.
  exact (proj2 (prepare_records_actor_IRI
                  subscriber_example.Verify subscriber_example.VerifyRequest
                  subscriber_example.unmarshalMessage
                  subscriber_example.signed
                  (message.mkMessage "uuid" "payload" ∅) eq_refl)
               eq_refl "https://alice.example/services/orb" eq_refl).
Defined.

(** ** Package resthandler: the answer of the policy configurator *)
Section ConfiguratorAnswers.
Import resthandler.
Context {Store ParseError Policy : Type}.
Variable Put : Store -> string -> string -> Store * option string.
Variable Parse : string -> ParseError + Policy.
Variable WitnessPolicyKey : string.

(** X8. The answer of [handle] is one of three, and which one is decided by
    the request and the store alone: 200 with nothing written to the body
    exactly when the body was read, parses as a policy and the [Put]
    succeeded; 400 with the text [Bad Request.] exactly when the body could
    not be read or does not parse; 500 with the text [Internal Server
    Error.] exactly when the [Put] of a parsed policy failed. In each case
    one header is written. *)
Theorem handle_answers_200_exactly_when_stored
    (store : Store) (w : http.ResponseWriter) (body : string * option string) :
  (snd body = None /\ (exists p, Parse (fst body) = inr p) /\
   snd (Put store WitnessPolicyKey (fst body)) = None /\
   response (handle Put Parse WitnessPolicyKey store w body)
   = http.mkResponseWriter (http.headers w ++ [200]) (http.written w)) \/
  ((snd body <> None \/ exists e, Parse (fst body) = inl e) /\
   response (handle Put Parse WitnessPolicyKey store w body)
   = http.mkResponseWriter (http.headers w ++ [400])
       (http.written w ++ "Bad Request.")) \/
  (snd body = None /\ (exists p, Parse (fst body) = inr p) /\
   (exists e, snd (Put store WitnessPolicyKey (fst body)) = Some e) /\
   response (handle Put Parse WitnessPolicyKey store w body)
   = http.mkResponseWriter (http.headers w ++ [500])
       (http.written w ++ "Internal Server Error.")).
Proof.
  destruct body as [bytes [err|]]; simpl; unfold handle.
  - right; left. split; [left; congruence|reflexivity].
  - destruct (Parse bytes) as [e|p] eqn:Hparse.
    + right; left. split; [right; eauto|reflexivity].
    + destruct (Put store WitnessPolicyKey bytes) as [store' [e|]] eqn:Hput; simpl.
      * right; right. repeat split; eauto.
      * left. repeat split; eauto.
Qed.
End ConfiguratorAnswers.

(** ** Package memstore: paging, filters and the stores *)
Section MemstoreFacts.
Import memstore.
Context {Activity : Type}.
Variable ID : Activity -> string.
Variable IsAny : Activity -> list string -> bool.

(** A value in the range of [int] is not changed by it. *)
Lemma int_in_range (z : Z) : - 2 ^ 63 <= z < 2 ^ 63 -> int z = z.
Proof. intros H. unfold int. rewrite Z.mod_small; lia. Qed.

(** [getFirstPageNum] on a positive page size: the number of the last
    page, counting from zero. *)
Lemma getFirstPageNum_positive (totalItems pageSize : Z) :
  0 <= totalItems < 2 ^ 63 -> 0 < pageSize ->
  getFirstPageNum totalItems pageSize = Return ((totalItems - 1) / pageSize).
Proof.
  intros Ht Hp. unfold getFirstPageNum.
  destruct (Z.eqb_spec pageSize 0) as [->|_]; [lia|].
  rewrite Z.rem_mod_nonneg, Z.quot_div_nonneg by lia.
  pose proof (Z.mod_pos_bound totalItems pageSize Hp) as Hm.
  pose proof (Z.div_mod totalItems pageSize ltac:(lia)) as Hd.
  assert (Hq : 0 <= totalItems / pageSize <= totalItems).
  { split; [apply Z.div_pos; lia|].
    apply Z.div_le_upper_bound; [lia|]. nia. }
  rewrite (int_in_range (totalItems / pageSize)) by lia.
  destruct (Z.gtb_spec (totalItems mod pageSize) 0) as [Hgt|Hle]; f_equal.
  - apply Z.div_unique_pos with (r := totalItems mod pageSize - 1); lia.
  - rewrite int_in_range by lia.
    apply Z.div_unique_pos with (r := pageSize - 1); lia.
Qed.

(** [getStartIndex] returns, and what it returns can be used to slice. *)
Lemma getStartIndex_returns (totalItems : Z) (options : QueryOptions) :
  exists startIdx,
    getStartIndex totalItems options = Return startIdx /\
    (startIdx = -1 \/ 0 <= startIdx < totalItems \/
     (startIdx = 0 /\ PageSize options <= 0)).
Proof.
  unfold getStartIndex, startIndex, getFirstPageNum.
  destruct (Z.leb_spec (PageSize options) 0) as [Hle|Hgt].
  { exists 0. split; [reflexivity|]. right; right. lia. }
  destruct (Z.eqb_spec (PageSize options) 0) as [H0|_]; [lia|].
  set (done := fun startIdx : Z =>
         if (startIdx <? 0) || (startIdx >=? totalItems)
         then Return (-1) else Return startIdx).
  assert (Hdone : forall i, exists startIdx, done i = Return startIdx /\
            (startIdx = -1 \/ 0 <= startIdx < totalItems \/
             (startIdx = 0 /\ PageSize options <= 0))).
  { intros i. unfold done.
    destruct (Z.ltb_spec i 0); simpl; [eexists; split; [reflexivity|]; lia|].
    destruct (Z.geb_spec i totalItems); eexists; (split; [reflexivity|]); lia. }
  destruct (PageNumber options <? 0); [apply (Hdone 0)|].
  destruct (SortOrder_ options); [apply Hdone|].
  destruct (Z.rem totalItems (PageSize options) >? 0); apply Hdone.
Qed.

Variable reverseSort : forall A : Type, list A -> list A.

(** What [from_start_index] returns when [getStartIndex] is known. *)
Lemma from_start_index_at {A : Type} (results : list A) (options : QueryOptions)
    (startIdx : Z) :
  length (sorted reverseSort options results) = length results ->
  getStartIndex (Z.of_nat (length results)) options = Return startIdx ->
  from_start_index reverseSort results options
  = Return (if startIdx =? -1 then []
            else drop (Z.to_nat startIdx) (sorted reverseSort options results),
            length results).
Proof.
  intros Hlen Hidx. unfold from_start_index.
  rewrite Hlen, Hidx.
  destruct (getStartIndex_returns (Z.of_nat (length results)) options)
    as (i & Hi & Hrange).
  rewrite Hidx in Hi. injection Hi as <-.
  destruct (Z.eqb_spec startIdx (-1)); [reflexivity|].
  destruct (Z.leb_spec 0 startIdx); [|lia].
  destruct (Z.leb_spec startIdx (Z.of_nat (length results))); [reflexivity|lia].
Qed.

(** Ascending order: the page starts at [PageNumber * PageSize]. *)
Lemma from_start_index_ascending {A : Type} (results : list A)
    (pageNumber pageSize : Z) :
  0 < pageSize -> 0 <= pageNumber -> pageNumber * pageSize < 2 ^ 63 ->
  from_start_index reverseSort results
    (mkQueryOptions pageNumber pageSize SortAscending)
  = Return (drop (Z.to_nat (pageNumber * pageSize)) results, length results).
Proof.
  intros Hs Hn Hno.
  assert (Hidx : getStartIndex (Z.of_nat (length results))
                   (mkQueryOptions pageNumber pageSize SortAscending)
                 = Return (if pageNumber * pageSize <? Z.of_nat (length results)
                           then pageNumber * pageSize else -1)).
  { unfold getStartIndex, startIndex. simpl.
    destruct (Z.leb_spec pageSize 0); [lia|].
    destruct (Z.ltb_spec pageNumber 0); [lia|].
    rewrite int_in_range by nia.
    destruct (Z.ltb_spec (pageNumber * pageSize) 0); [nia|]. simpl.
    destruct (Z.geb_spec (pageNumber * pageSize) (Z.of_nat (length results)));
      destruct (Z.ltb_spec (pageNumber * pageSize) (Z.of_nat (length results)));
      try lia; reflexivity. }
  rewrite (from_start_index_at _ _ _ eq_refl Hidx). unfold sorted. simpl.
  destruct (Z.ltb_spec (pageNumber * pageSize) (Z.of_nat (length results))).
  - destruct (Z.eqb_spec (pageNumber * pageSize) (-1)); [nia|reflexivity].
  - simpl. f_equal. f_equal. symmetry. apply drop_ge. lia.
Qed.

(** X10. Pages in ascending order. With a positive page size, a page number
    that is not negative and no overflow of [int], a query returns the
    matches from index [PageNumber * PageSize] to the end (not one page of
    them), and none when that index is past the end. *)
Theorem ascending_page_starts_at_PageNumber_times_PageSize
    (r : list Activity) (refs : list string) (query : Criteria)
    (pageNumber pageSize : Z) :
  0 < pageSize -> 0 <= pageNumber -> pageNumber * pageSize < 2 ^ 63 ->
  activityQueryResults_filter reverseSort ID IsAny r query
    (mkQueryOptions pageNumber pageSize SortAscending)
  = Return (drop (Z.to_nat (pageNumber * pageSize))
              (activityQueryFilter_apply ID IsAny query r),
            length (activityQueryFilter_apply ID IsAny query r)) /\
  refQueryResults_filter reverseSort refs query
    (mkQueryOptions pageNumber pageSize SortAscending)
  = Return (drop (Z.to_nat (pageNumber * pageSize))
              (refQueryFilter_apply query refs),
            length (refQueryFilter_apply query refs)).
Proof.
  intros Hs Hn Hno. split; now apply from_start_index_ascending.
Qed.


(** Slicing never fails: the page is the sorted results from some index
    on. *)
Lemma from_start_index_returns {A : Type} (results : list A) (options : QueryOptions) :
  exists n : nat,
    from_start_index reverseSort results options
    = Return (drop n (sorted reverseSort options results),
              length (sorted reverseSort options results)).
Proof.
  unfold from_start_index.
  destruct (getStartIndex_returns
              (Z.of_nat (length (sorted reverseSort options results))) options)
    as (i & Hi & Hrange).
  rewrite Hi.
  destruct (Z.eqb_spec i (-1)).
  - exists (length (sorted reverseSort options results)).
    now rewrite drop_all.
  - exists (Z.to_nat i).
    destruct (Z.leb_spec 0 i); [|lia].
    destruct (Z.leb_spec i (Z.of_nat (length (sorted reverseSort options results))));
      [reflexivity|lia].
Qed.

Hypothesis reverseSort_length :
  forall (A : Type) (l : list A), length (reverseSort A l) = length l.

Lemma sorted_length {A : Type} (options : QueryOptions) (results : list A) :
  length (sorted reverseSort options results) = length results.
Proof. unfold sorted. destruct (SortOrder_ options); auto. Qed.

(** Descending order: the pages are numbered from the end; the page with
    the highest number, [(total - 1) / PageSize], starts the sorted
    results. *)
Lemma from_start_index_descending {A : Type} (results : list A)
    (pageNumber pageSize : Z) :
  0 < pageSize -> 0 <= pageNumber -> (pageNumber + 1) * pageSize < 2 ^ 63 ->
  Z.of_nat (length results) < 2 ^ 63 ->
  from_start_index reverseSort results
    (mkQueryOptions pageNumber pageSize SortDescending)
  = Return
      (if pageNumber <=? (Z.of_nat (length results) - 1) / pageSize
       then drop (Z.to_nat (((Z.of_nat (length results) - 1) / pageSize
                             - pageNumber) * pageSize))
              (reverseSort A results)
       else [],
       length results).
Proof.
  intros Hs Hn Hno Hlen.
  set (total := Z.of_nat (length results)) in *.
  set (first := (total - 1) / pageSize).
  assert (Hfirst : first * pageSize <= total - 1 < first * pageSize + pageSize).
  { pose proof (Z.div_mod (total - 1) pageSize ltac:(lia)) as Hd.
    pose proof (Z.mod_pos_bound (total - 1) pageSize Hs) as Hm.
    subst first. lia. }
  assert (Hf1 : -1 <= first) by nia.
  assert (Hidx : getStartIndex total
                   (mkQueryOptions pageNumber pageSize SortDescending)
                 = Return (if pageNumber <=? first
                           then (first - pageNumber) * pageSize else -1)).
  { unfold getStartIndex, startIndex. simpl.
    destruct (Z.leb_spec pageSize 0); [lia|].
    destruct (Z.ltb_spec pageNumber 0); [lia|].
    rewrite getFirstPageNum_positive by lia. fold first.
    rewrite (int_in_range (first - pageNumber)) by nia.
    rewrite int_in_range by nia.
    destruct (Z.leb_spec pageNumber first).
    - destruct (Z.ltb_spec ((first - pageNumber) * pageSize) 0); [nia|]. simpl.
      destruct (Z.geb_spec ((first - pageNumber) * pageSize) total); [nia|].
      reflexivity.
    - destruct (Z.ltb_spec ((first - pageNumber) * pageSize) 0); [|nia].
      reflexivity. }
  rewrite (from_start_index_at _ _ _ (sorted_length _ _) Hidx). unfold sorted. simpl.
  destruct (Z.leb_spec pageNumber first).
  - destruct (Z.eqb_spec ((first - pageNumber) * pageSize) (-1)); [nia|].
    reflexivity.
  - reflexivity.
Qed.

(** No paging: with a page size that is not positive, or a negative page
    number, all results are returned. *)
Lemma from_start_index_all {A : Type} (results : list A) (options : QueryOptions) :
  PageSize options <= 0 \/ PageNumber options < 0 ->
  from_start_index reverseSort results options
  = Return (sorted reverseSort options results, length results).
Proof.
  intros Hno.
  assert (Hidx : getStartIndex (Z.of_nat (length results)) options
                 = Return (if (0 <? PageSize options)
                              && (Z.of_nat (length results) =? 0)
                           then -1 else 0)).
  { unfold getStartIndex, startIndex.
    destruct (Z.leb_spec (PageSize options) 0);
      destruct (Z.ltb_spec 0 (PageSize options)); try lia; [reflexivity|].
    destruct (Z.ltb_spec (PageNumber options) 0); [|lia]. simpl.
    destruct (Z.geb_spec 0 (Z.of_nat (length results)));
      destruct (Z.eqb_spec (Z.of_nat (length results)) 0); try lia; reflexivity. }
  rewrite (from_start_index_at _ _ _ (sorted_length _ _) Hidx).
  destruct ((0 <? PageSize options) && (Z.of_nat (length results) =? 0)) eqn:Hc.
  - simpl. apply andb_true_iff in Hc as [_ Hc]. apply Z.eqb_eq in Hc.
    assert (Hnil : sorted reverseSort options results = []).
    { apply length_zero_iff_nil. rewrite sorted_length. lia. }
    now rewrite Hnil.
  - reflexivity.
Qed.

(** *** What matches a query *)

Lemma fold_left_keep {A : Type} (p : A -> bool) (l acc : list A) :
  fold_left (fun results a => if p a then (results ++ [a])%list else results) l acc
  = (acc ++ List.filter p l)%list.
Proof.
  revert acc. induction l as [|a l IH]; intros acc; simpl.
  - now rewrite app_nil_r.
  - rewrite IH. destruct (p a); [|reflexivity].
    now rewrite <- app_assoc.
Qed.

Lemma containsIRI_In (iris : list string) (id : string) :
  containsIRI iris id = true <-> In id iris.
Proof.
  induction iris as [|iri rest IH]; simpl; [easy|].
  destruct (String.eqb_spec iri id); [tauto|].
  rewrite IH. split; [tauto|]. intros [?|?]; [congruence|trivial].
Qed.

Lemma filter_sublist {A : Type} (p : A -> bool) (l : list A) :
  sublist (List.filter p l) l.
Proof.
  induction l as [|a l IH]; simpl; [constructor|].
  destruct (p a); now constructor.
Qed.

Lemma filter_all {A : Type} (p : A -> bool) (l : list A) :
  (forall a, In a l -> p a = true) -> List.filter p l = l.
Proof.
  induction l as [|a l IH]; simpl; intros H; [reflexivity|].
  rewrite (H a) by now left. f_equal. apply IH. intros b Hb. apply H. now right.
Qed.

(** [activityQueryFilter.apply] keeps the activities that pass its test, in
    their order. *)
Lemma activityQueryFilter_apply_filter (q : Criteria) (acts : list Activity) :
  activityQueryFilter_apply ID IsAny q acts
  = List.filter
      (fun a => if (0 <? length (ActivityIRIs q))%nat
                then containsIRI (ActivityIRIs q) (ID a)
                else (length (Types q) =? 0)%nat || IsAny a (Types q))
      acts.
Proof.
  unfold activityQueryFilter_apply.
  destruct (0 <? length (ActivityIRIs q))%nat; now rewrite fold_left_keep.
Qed.

(** [refQueryFilter.apply] likewise. *)
Lemma refQueryFilter_apply_filter (q : Criteria) (refs : list string) :
  refQueryFilter_apply q refs
  = List.filter
      (fun ref => match ReferenceIRI q with
                  | None => true
                  | Some iri => (ref =? iri)%string
                  end)
      refs.
Proof.
  unfold refQueryFilter_apply.
  destruct (ReferenceIRI q) as [iri|].
  - now rewrite fold_left_keep.
  - now rewrite (fold_left_keep (fun _ => true)).
Qed.

Lemma activityQueryFilter_apply_length (q : Criteria) (acts : list Activity) :
  (length (activityQueryFilter_apply ID IsAny q acts) <= length acts)%nat.
Proof. rewrite activityQueryFilter_apply_filter. apply List.filter_length_le. Qed.

Lemma refQueryFilter_apply_length (q : Criteria) (refs : list string) :
  (length (refQueryFilter_apply q refs) <= length refs)%nat.
Proof. rewrite refQueryFilter_apply_filter. apply List.filter_length_le. Qed.

(** X9. A query never fails on its paging. Whatever the page number, the
    page size and the order (zero and negative values included), a query of
    the activity store and a query of a reference store with an object IRI
    return; the items returned are the matches, in the order asked for, from
    some index on, and the total is the number of all matches. No division
    by zero and no slicing out of range can happen. A reference query
    without object IRI returns the error [object IRI is required]. *)
Theorem query_never_panics
    (s : activityStore Activity) (rs : referenceStore)
    (query : Criteria) (options : QueryOptions) :
  (exists n : nat,
     activityStore_query reverseSort ID IsAny s query options
     = Return (drop n (sorted reverseSort options
                         (activityQueryFilter_apply ID IsAny query (activities s))),
               length (activityQueryFilter_apply ID IsAny query (activities s)))) /\
  (forall object, ObjectIRI query = Some object ->
     exists n : nat,
       referenceStore_query reverseSort rs query options
       = Return (inl (drop n (sorted reverseSort options
                                (refQueryFilter_apply query (irisFor rs object))),
                      length (refQueryFilter_apply query (irisFor rs object))))) /\
  (ObjectIRI query = None ->
     referenceStore_query reverseSort rs query options
     = Return (inr (Errorf "object IRI is required"))).
Proof.
  split; [|split].
  - unfold activityStore_query, activityQueryResults_filter.
    destruct (from_start_index_returns
                (activityQueryFilter_apply ID IsAny query (activities s)) options)
      as [n Hn].
    exists n. now rewrite Hn, sorted_length.
  - intros object Hobj. unfold referenceStore_query, refQueryResults_filter.
    rewrite Hobj.
    destruct (from_start_index_returns
                (refQueryFilter_apply query (irisFor rs object)) options)
      as [n Hn].
    exists n. now rewrite Hn, sorted_length.
  - intros Hobj. unfold referenceStore_query. now rewrite Hobj.
Qed.

(** X11. Pages in descending order are numbered from the end. With a
    positive page size, a page number that is not negative and no overflow
    of [int], the highest page number is [(total - 1) / PageSize]: that page
    starts the reversed results, each lower number starts one page size
    further on, page 0 is the last one, and a higher number gives no
    items. *)
Theorem descending_pages_are_numbered_from_the_end
    (r : list Activity) (refs : list string) (query : Criteria)
    (pageNumber pageSize : Z) :
  0 < pageSize -> 0 <= pageNumber -> (pageNumber + 1) * pageSize < 2 ^ 63 ->
  Z.of_nat (length r) < 2 ^ 63 -> Z.of_nat (length refs) < 2 ^ 63 ->
  activityQueryResults_filter reverseSort ID IsAny r query
    (mkQueryOptions pageNumber pageSize SortDescending)
  = Return
      (if pageNumber
          <=? (Z.of_nat (length (activityQueryFilter_apply ID IsAny query r)) - 1)
              / pageSize
       then drop (Z.to_nat
                    (((Z.of_nat (length (activityQueryFilter_apply ID IsAny query r)) - 1)
                      / pageSize - pageNumber) * pageSize))
              (reverseSort Activity (activityQueryFilter_apply ID IsAny query r))
       else [],
       length (activityQueryFilter_apply ID IsAny query r)) /\
  refQueryResults_filter reverseSort refs query
    (mkQueryOptions pageNumber pageSize SortDescending)
  = Return
      (if pageNumber
          <=? (Z.of_nat (length (refQueryFilter_apply query refs)) - 1) / pageSize
       then drop (Z.to_nat
                    (((Z.of_nat (length (refQueryFilter_apply query refs)) - 1)
                      / pageSize - pageNumber) * pageSize))
              (reverseSort string (refQueryFilter_apply query refs))
       else [],
       length (refQueryFilter_apply query refs)).
Proof.
  intros Hs Hn Hno Hr Hrefs.
  pose proof (activityQueryFilter_apply_length query r).
  pose proof (refQueryFilter_apply_length query refs).
  split; apply from_start_index_descending; lia.
Qed.

(** X12. No paging. With a page size that is not positive, or with a
    negative page number, a query returns all matches, in the order asked
    for. *)
Theorem query_without_paging_returns_all
    (r : list Activity) (refs : list string) (query : Criteria)
    (options : QueryOptions) :
  PageSize options <= 0 \/ PageNumber options < 0 ->
  activityQueryResults_filter reverseSort ID IsAny r query options
  = Return (sorted reverseSort options (activityQueryFilter_apply ID IsAny query r),
            length (activityQueryFilter_apply ID IsAny query r)) /\
  refQueryResults_filter reverseSort refs query options
  = Return (sorted reverseSort options (refQueryFilter_apply query refs),
            length (refQueryFilter_apply query refs)).
Proof.
  intros Hno. split; now apply from_start_index_all.
Qed.

(** X13. What matches. The activities a query matches are a sublist of the
    stored ones, in their order. When the query names activity IRIs, an
    activity matches exactly when its ID is one of them, whatever types the
    query names; with neither IRIs nor types every activity matches; with
    types only, those that have one of them. A reference matches when the
    query names no reference IRI, or names that very reference. *)
Theorem query_matches
    (q : Criteria) (acts : list Activity) (refs : list string) :
  sublist (activityQueryFilter_apply ID IsAny q acts) acts /\
  (ActivityIRIs q <> [] ->
     forall a, In a (activityQueryFilter_apply ID IsAny q acts)
               <-> In a acts /\ In (ID a) (ActivityIRIs q)) /\
  (ActivityIRIs q = [] -> Types q = [] ->
     activityQueryFilter_apply ID IsAny q acts = acts) /\
  (ActivityIRIs q = [] -> Types q <> [] ->
     forall a, In a (activityQueryFilter_apply ID IsAny q acts)
               <-> In a acts /\ IsAny a (Types q) = true) /\
  sublist (refQueryFilter_apply q refs) refs /\
  (ReferenceIRI q = None -> refQueryFilter_apply q refs = refs) /\
  (forall iri, ReferenceIRI q = Some iri ->
     forall ref, In ref (refQueryFilter_apply q refs) <-> In ref refs /\ ref = iri).
Proof.
  rewrite activityQueryFilter_apply_filter, refQueryFilter_apply_filter.
  split; [apply filter_sublist|].
  split; [|split; [|split; [|split; [|split]]]].
  - intros Hiris a. rewrite List.filter_In.
    destruct (ActivityIRIs q) as [|iri rest] eqn:Hq; [congruence|].
    change (0 <? length (iri :: rest))%nat with true. cbv iota.
    now rewrite containsIRI_In.
  - intros -> ->. simpl. now apply filter_all.
  - intros -> Htypes a. rewrite List.filter_In. simpl.
    destruct (Types q) as [|t ts] eqn:Hq; [congruence|]. simpl. tauto.
  - apply filter_sublist.
  - intros ->. now apply filter_all.
  - intros iri -> ref. rewrite List.filter_In.
    destruct (String.eqb_spec ref iri); intuition congruence.
Qed.

(** *** The activity store *)

Lemma find_append {A : Type} (p : A -> bool) (l1 l2 : list A) :
  find p (l1 ++ l2)%list
  = match find p l1 with Some a => Some a | None => find p l2 end.
Proof.
  induction l1 as [|a l1 IH]; simpl; [reflexivity|].
  now destruct (p a).
Qed.

(** The store after a program of [AddActivity] calls. *)
Lemma AddActivity_all (acts : list Activity) (s : Store Activity) :
  activities (activityStore_ (fold_left (fun s a => fst (AddActivity ID s a)) acts s))
  = (activities (activityStore_ s) ++ acts)%list /\
  forall id,
    activityByID (activityStore_
                    (fold_left (fun s a => fst (AddActivity ID s a)) acts s)) !! id
    = match find (fun a => (ID a =? id)%string) (rev acts) with
      | Some a => Some a
      | None => activityByID (activityStore_ s) !! id
      end.
Proof.
  revert s. induction acts as [|a acts IH]; intros s; cbn [fold_left rev].
  - split; [now rewrite app_nil_r|reflexivity].
  - destruct (IH (fst (AddActivity ID s a))) as [Hl Hm]. split.
    + rewrite Hl. simpl. now rewrite <- app_assoc.
    + intros id. rewrite Hm. rewrite find_append.
      destruct (find _ (rev acts)); [reflexivity|]. simpl.
      destruct (String.eqb_spec (ID a) id) as [->|Hne].
      * apply lookup_insert_eq.
      * now apply lookup_insert_ne.
Qed.

(** X14. The latest activity of an ID. After any number of [AddActivity]
    calls on a new store, [GetActivity] returns the activity added last
    under the ID asked for, and [ErrNotFound] when none was added under it;
    the list the queries read holds every activity added, in the order of
    the calls, an earlier activity of the same ID included. *)
Theorem GetActivity_returns_the_latest (acts : list Activity) (activityID : string) :
  GetActivity (fold_left (fun s a => fst (AddActivity ID s a)) acts New) activityID
  = match find (fun a => (ID a =? activityID)%string) (rev acts) with
    | Some a => inl a
    | None => inr ErrNotFound
    end /\
  activities (activityStore_
                (fold_left (fun s a => fst (AddActivity ID s a)) acts New)) = acts.
Proof.
  destruct (AddActivity_all acts New) as [Hl Hm]. split; [|exact Hl].
  unfold GetActivity, activityStore_get. rewrite Hm.
  destruct (find _ (rev acts)); reflexivity.
Qed.

(** *** The reference stores *)

Lemma indexOf_Some (iri : string) (l : list string) (i j : nat) :
  indexOf iri l i = Some j ->
  exists pre post,
    l = (pre ++ iri :: post)%list /\ ~ In iri pre /\ j = (i + length pre)%nat.
Proof.
  revert i. induction l as [|x l IH]; intros i; simpl; [discriminate|].
  destruct (String.eqb_spec x iri) as [->|Hne].
  - intros [= <-]. exists [], l. repeat split; [easy|simpl; lia].
  - intros H. destruct (IH _ H) as (pre & post & -> & Hnot & ->).
    exists (x :: pre), post. repeat split.
    + intros [?|?]; [congruence|auto].
    + simpl. lia.
Qed.

Lemma indexOf_None (iri : string) (l : list string) (i : nat) :
  indexOf iri l i = None <-> ~ In iri l.
Proof.
  revert i. induction l as [|x l IH]; intros i; simpl; [easy|].
  destruct (String.eqb_spec x iri) as [->|Hne].
  - split; [discriminate|]. intros H. exfalso. apply H. now left.
  - rewrite IH. split; [intros H [?|?]; auto|tauto].
Qed.

(** The references of an object after [referenceStore.delete]. *)
Lemma referenceStore_delete_irisFor (rs : referenceStore) (actor iri other : string) :
  irisFor (referenceStore_delete rs actor iri) other
  = if (other =? actor)%string
    then match indexOf iri (irisFor rs actor) 0 with
         | Some i => (take i (irisFor rs actor) ++ drop (S i) (irisFor rs actor))%list
         | None => irisFor rs actor
         end
    else irisFor rs other.
Proof.
  unfold referenceStore_delete.
  destruct (String.eqb_spec other actor) as [->|Hne];
    destruct (indexOf iri (irisFor rs actor) 0); try reflexivity;
    unfold irisFor at 1; simpl.
  - now rewrite lookup_insert_eq.
  - now rewrite lookup_insert_ne by congruence.
Qed.

Lemma referenceStore_add_irisFor (rs : referenceStore) (actor iri other : string) :
  irisFor (referenceStore_add rs actor iri) other
  = if (other =? actor)%string then (irisFor rs actor ++ [iri])%list
    else irisFor rs other.
Proof.
  unfold referenceStore_add.
  destruct (String.eqb_spec other actor) as [->|Hne]; unfold irisFor at 1; simpl.
  - now rewrite lookup_insert_eq.
  - now rewrite lookup_insert_ne by congruence.
Qed.

(** The references in a store in which one reference store was replaced. *)
Lemma references_insert (a : activityStore Activity)
    (m : gmap ReferenceType referenceStore) (t t' : ReferenceType)
    (rs : referenceStore) (o : string) :
  references (mkStore Activity a (<[t := rs]> m)) t' o
  = if decide (t' = t) then irisFor rs o else references (mkStore Activity a m) t' o.
Proof.
  unfold references. simpl. destruct (decide (t' = t)) as [->|Hne].
  - now rewrite lookup_insert_eq.
  - now rewrite lookup_insert_ne by congruence.
Qed.

(** X15. Adding a reference. [AddReference] with both IRIs given, when it
    returns, returns no error and puts the reference at the end of the
    references the object has of that type, whether it is among them
    already or not; the references of every other object and type, and the
    activities, are as before. *)
Theorem AddReference_appends
    (s s' : Store Activity) (t : ReferenceType) (object reference : string)
    (err : option error) :
  AddReference s t (Some object) (Some reference) = Return (s', err) ->
  err = None /\
  references s' t object = (references s t object ++ [reference])%list /\
  (forall t' object', (t', object') <> (t, object) ->
     references s' t' object' = references s t' object') /\
  activityStore_ s' = activityStore_ s.
Proof.
  unfold AddReference.
  destruct (referenceStores s !! t) as [rs|] eqn:Hrs; [|discriminate].
  intros [= <- <-]. split; [reflexivity|]. split; [|split; [|reflexivity]].
  - rewrite references_insert. rewrite decide_True by reflexivity.
    rewrite referenceStore_add_irisFor, String.eqb_refl.
    unfold references. now rewrite Hrs.
  - intros t' object' Hne. rewrite references_insert.
    destruct (decide (t' = t)) as [->|Hnt].
    + rewrite referenceStore_add_irisFor.
      destruct (String.eqb_spec object' object); [congruence|].
      unfold references. now rewrite Hrs.
    + destruct s; reflexivity.
Qed.

(** X16. Deleting a reference. [DeleteReference] with both IRIs given, when
    it returns, returns no error; it removes the first occurrence of the
    reference among the references the object has of that type and keeps
    the others in their order (a reference added twice is still there
    once); when the reference is not among them nothing changes. The
    references of every other object and type, and the activities, are as
    before. *)
Theorem DeleteReference_removes_the_first_occurrence
    (s s' : Store Activity) (t : ReferenceType) (object reference : string)
    (err : option error) :
  DeleteReference s t (Some object) (Some reference) = Return (s', err) ->
  err = None /\
  (~ In reference (references s t object) ->
     references s' t object = references s t object) /\
  (In reference (references s t object) ->
     exists pre post,
       references s t object = (pre ++ reference :: post)%list /\
       ~ In reference pre /\
       references s' t object = (pre ++ post)%list) /\
  (forall t' object', (t', object') <> (t, object) ->
     references s' t' object' = references s t' object') /\
  activityStore_ s' = activityStore_ s.
Proof.
  unfold DeleteReference.
  destruct (referenceStores s !! t) as [rs|] eqn:Hrs; [|discriminate].
  intros [= <- <-]. split; [reflexivity|].
  assert (Hold : references s t object = irisFor rs object).
  { unfold references. now rewrite Hrs. }
  rewrite Hold.
  assert (Hnew : references
                   (mkStore Activity (activityStore_ s)
                      (<[t := referenceStore_delete rs object reference]>
                         (referenceStores s))) t object
                 = match indexOf reference (irisFor rs object) 0 with
                   | Some i => (take i (irisFor rs object)
                                ++ drop (S i) (irisFor rs object))%list
                   | None => irisFor rs object
                   end).
  { rewrite references_insert, decide_True by reflexivity.
    now rewrite referenceStore_delete_irisFor, String.eqb_refl. }
  rewrite Hnew. clear Hnew.
  split; [|split; [|split; [|reflexivity]]].
  - intros Hnot. apply indexOf_None with (i := 0%nat) in Hnot. now rewrite Hnot.
  - intros Hin.
    destruct (indexOf reference (irisFor rs object) 0) as [i|] eqn:Hi.
    + destruct (indexOf_Some _ _ _ _ Hi) as (pre & post & Hl & Hnot & ->).
      exists pre, post. repeat split; [exact Hl|exact Hnot|].
      rewrite Hl. simpl.
      rewrite take_app_length.
      change (pre ++ reference :: post)%list
        with (pre ++ [reference] ++ post)%list.
      rewrite app_assoc.
      replace (S (length pre)) with (length (pre ++ [reference])%list)
        by (rewrite length_app; simpl; lia).
      now rewrite drop_app_length.
    + apply indexOf_None in Hi. contradiction.
  - intros t' object' Hne. rewrite references_insert.
    destruct (decide (t' = t)) as [->|Hnt].
    + rewrite referenceStore_delete_irisFor.
      destruct (String.eqb_spec object' object); [congruence|].
      unfold references. now rewrite Hrs.
    + destruct s; reflexivity.
Qed.

(** The reference stores of a store stay the ones [New] made. *)
Lemma call_registered (s s' : Store Activity) (c : Call Activity) :
  (forall t, is_Some (referenceStores s !! t) <-> registered t = true) ->
  call ID s c = Return s' ->
  forall t, is_Some (referenceStores s' !! t) <-> registered t = true.
Proof.
  intros Hinv Hcall t.
  assert (Hins : forall t0 rs rs',
            referenceStores s !! t0 = Some rs ->
            (is_Some (<[t0 := rs']> (referenceStores s) !! t)
             <-> registered t = true)).
  { intros t0 rs rs' Hrs. destruct (decide (t = t0)) as [->|Hne].
    - rewrite lookup_insert_eq. rewrite <- Hinv, Hrs. split; eauto.
    - rewrite lookup_insert_ne by congruence. apply Hinv. }
  destruct c as [a|t0 [o|] [r|]|t0 [o|] [r|]]; simpl in Hcall;
    unfold AddReference, DeleteReference in Hcall;
    try (injection Hcall as <-; simpl; apply Hinv).
  all: destruct (referenceStores s !! t0) as [rs|] eqn:Hrs; [|discriminate].
  all: injection Hcall as <-; simpl; eapply Hins; eauto.
Qed.

Lemma calls_registered (cs : list (Call Activity)) (s s' : Store Activity) :
  (forall t, is_Some (referenceStores s !! t) <-> registered t = true) ->
  calls ID s cs = Return s' ->
  forall t, is_Some (referenceStores s' !! t) <-> registered t = true.
Proof.
  revert s. induction cs as [|c cs IH]; intros s Hinv; simpl.
  - now intros [= <-].
  - destruct (call ID s c) as [s1|] eqn:Hc; [|discriminate].
    intros Hcs. apply (IH s1); [|exact Hcs].
    exact (call_registered _ _ _ Hinv Hc).
Qed.

Lemma New_registered (t : ReferenceType) :
  is_Some (referenceStores (@New Activity) !! t) <-> registered t = true.
Proof.
  destruct t; simpl; split; intros H; try reflexivity; try discriminate;
    try (eexists; reflexivity).
  destruct H as [rs H]. vm_compute in H. discriminate.
Qed.

(** X17. Reference types the store does not know. In a store that [New]
    made, after any calls that returned: with one of the eleven reference
    types of [New], [AddReference] and [DeleteReference] with both IRIs
    given return without error and [QueryReferences] returns; with any
    other reference type the three calls panic on a nil reference store.
    The two that change the store panic only once they have found both
    IRIs given: a nil IRI is answered with an error before the type is
    used. *)
Theorem unknown_reference_type_panics
    (cs : list (Call Activity)) (s : Store Activity) (t : ReferenceType)
    (object reference : string) (query : Criteria) (options : QueryOptions) :
  calls ID New cs = Return s ->
  (registered t = true ->
     (exists s', AddReference s t (Some object) (Some reference) = Return (s', None)) /\
     (exists s', DeleteReference s t (Some object) (Some reference)
                 = Return (s', None)) /\
     (exists result, QueryReferences reverseSort s t query options = Return result)) /\
  (registered t = false ->
     AddReference s t (Some object) (Some reference) = Panics nil_dereference /\
     DeleteReference s t (Some object) (Some reference) = Panics nil_dereference /\
     QueryReferences reverseSort s t query options = Panics nil_dereference /\
     AddReference s t None (Some reference)
     = Return (s, Some (Errorf "nil object IRI")) /\
     DeleteReference s t (Some object) None
     = Return (s, Some (Errorf "nil reference IRI"))).
Proof.
  intros Hcalls.
  pose proof (calls_registered cs New s New_registered Hcalls t) as Hinv.
  unfold AddReference, DeleteReference, QueryReferences.
  split; intros Hreg.
  - apply Hinv in Hreg as [rs Hrs]. rewrite Hrs.
    split; [eauto|]. split; [eauto|].
    unfold referenceStore_query, refQueryResults_filter.
    destruct (ObjectIRI query) as [o|]; [|eauto].
    destruct (from_start_index_returns
                (refQueryFilter_apply query (irisFor rs o)) options) as [n Hn].
    rewrite Hn. eauto.
  - destruct (referenceStores s !! t) as [rs|] eqn:Hrs; [|auto 6].
    assert (registered t = true) by (apply Hinv; eauto). congruence.
Qed.
End MemstoreFacts.

(** The stable sort of the examples keeps the length. *)
Lemma example_reverseSort_length (A : Type) (l : list A) :
  length (memstore_example.reverseSort A l) = length l.
Proof. apply length_rev. Qed.

(** Page size 0 and page number 7, descending, on five activities: the
    query returns, with total 5. *)
Lemma query_never_panics_witness :
  exists n : nat,
    memstore.activityStore_query memstore_example.reverseSort
      memstore_example.ID memstore_example.IsAny
      (memstore.mkActivityStore memstore_example.Activity memstore_example.five ∅)
      memstore_example.everything
      (memstore.mkQueryOptions 7 0 memstore.SortDescending)
    = memstore.Return
        (drop n (rev memstore_example.five), 5%nat).
Proof.
  exact (proj1 (query_never_panics memstore_example.ID memstore_example.IsAny
                  memstore_example.reverseSort example_reverseSort_length
                  (memstore.mkActivityStore memstore_example.Activity
                     memstore_example.five ∅)
                  memstore.newReferenceStore
                  memstore_example.everything
                  (memstore.mkQueryOptions 7 0 memstore.SortDescending))).
Defined.

(** Five activities, pages of two: ascending page 1 starts at the third
    activity and runs to the end. *)
Lemma ascending_page_witness :
  memstore.activityQueryResults_filter memstore_example.reverseSort
    memstore_example.ID memstore_example.IsAny
    memstore_example.five memstore_example.everything
    (memstore.mkQueryOptions 1 2 memstore.SortAscending)
  = memstore.Return
      ([memstore_example.accept3; memstore_example.create4;
        memstore_example.create5], 5%nat).
Proof.
  refine (proj1 (ascending_page_starts_at_PageNumber_times_PageSize
                   memstore_example.ID memstore_example.IsAny
                   memstore_example.reverseSort
                   memstore_example.five [] memstore_example.everything 1 2
                   _ _ _)); lia.
Defined.

(** Five activities, pages of two, descending: the highest page number is
    2; page 1 starts two items into the reversed list. *)
Lemma descending_pages_witness :
  memstore.activityQueryResults_filter memstore_example.reverseSort
    memstore_example.ID memstore_example.IsAny
    memstore_example.five memstore_example.everything
    (memstore.mkQueryOptions 1 2 memstore.SortDescending)
  = memstore.Return
      ([memstore_example.accept3; memstore_example.follow2;
        memstore_example.create1], 5%nat).
Proof.
  refine (proj1 (descending_pages_are_numbered_from_the_end
                   memstore_example.ID memstore_example.IsAny
                   memstore_example.reverseSort example_reverseSort_length
                   memstore_example.five [] memstore_example.everything 1 2
                   _ _ _ _ _)); simpl; lia.
Defined.

(** Page number -1 with pages of two, descending: all five, reversed. *)
Lemma query_without_paging_witness :
  memstore.activityQueryResults_filter memstore_example.reverseSort
    memstore_example.ID memstore_example.IsAny
    memstore_example.five memstore_example.everything
    (memstore.mkQueryOptions (-1) 2 memstore.SortDescending)
  = memstore.Return (rev memstore_example.five, 5%nat).
Proof.
  refine (proj1 (query_without_paging_returns_all
                   memstore_example.ID memstore_example.IsAny
                   memstore_example.reverseSort example_reverseSort_length
                   memstore_example.five [] memstore_example.everything
                   (memstore.mkQueryOptions (-1) 2 memstore.SortDescending) _)).
  right. simpl. lia.
Defined.

(** A query that names the IRI of [follow2] and the type Create: the type
    is not looked at. *)
Lemma query_matches_witness :
  In memstore_example.follow2
    (memstore.activityQueryFilter_apply memstore_example.ID memstore_example.IsAny
       (memstore.mkCriteria ["Create"] None None
          [memstore_example.ID memstore_example.follow2])
       memstore_example.five).
Proof.
  apply (proj1 (proj2 (query_matches memstore_example.ID memstore_example.IsAny
                         (memstore.mkCriteria ["Create"] None None
                            [memstore_example.ID memstore_example.follow2])
                         memstore_example.five []))).
  - discriminate.
  - split; [right; left; reflexivity|left; reflexivity].
Defined.

(** Alice follows the service a second time: she is listed twice. *)
Lemma AddReference_appends_witness :
  memstore.references
    (memstore_example.after
       (memstore_example.followed ++ [memstore_example.follow_alice])%list)
    memstore.Follower memstore_example.service
  = [memstore_example.alice; memstore_example.bob; memstore_example.alice;
     memstore_example.alice].
Proof.
  refine (proj1 (proj2
    (AddReference_appends
       (memstore_example.after memstore_example.followed)
       (memstore_example.after
          (memstore_example.followed ++ [memstore_example.follow_alice])%list)
       memstore.Follower memstore_example.service memstore_example.alice None
       _))).
  vm_compute. reflexivity.
Defined.

(** Alice, listed first and third, is deleted: the first entry goes. *)
Lemma DeleteReference_removes_the_first_occurrence_witness :
  exists pre post,
    [memstore_example.alice; memstore_example.bob; memstore_example.alice]
    = (pre ++ memstore_example.alice :: post)%list /\
    ~ In memstore_example.alice pre /\
    memstore.references
      (memstore_example.after
         (memstore_example.followed ++ [memstore_example.unfollow_alice])%list)
      memstore.Follower memstore_example.service
    = (pre ++ post)%list.
Proof.
  refine (proj1 (proj2 (proj2
    (DeleteReference_removes_the_first_occurrence
       (memstore_example.after memstore_example.followed)
       (memstore_example.after
          (memstore_example.followed ++ [memstore_example.unfollow_alice])%list)
       memstore.Follower memstore_example.service memstore_example.alice None
       _))) _).
  - vm_compute. reflexivity.
  - left. reflexivity.
Defined.

(** A reference type [New] has no store for. *)
Lemma unknown_reference_type_panics_witness :
  memstore.AddReference (memstore_example.after memstore_example.followed)
    (memstore.OtherType "FRIEND")
    (Some memstore_example.service) (Some memstore_example.alice)
  = memstore.Panics memstore.nil_dereference /\
  memstore.DeleteReference (memstore_example.after memstore_example.followed)
    (memstore.OtherType "FRIEND")
    (Some memstore_example.service) (Some memstore_example.alice)
  = memstore.Panics memstore.nil_dereference /\
  memstore.QueryReferences memstore_example.reverseSort
    (memstore_example.after memstore_example.followed)
    (memstore.OtherType "FRIEND") memstore_example.of_service
    (memstore.mkQueryOptions 0 0 memstore.SortAscending)
  = memstore.Panics memstore.nil_dereference /\
  memstore.AddReference (memstore_example.after memstore_example.followed)
    (memstore.OtherType "FRIEND") None (Some memstore_example.alice)
  = memstore.Return (memstore_example.after memstore_example.followed,
                     Some (memstore.Errorf "nil object IRI")) /\
  memstore.DeleteReference (memstore_example.after memstore_example.followed)
    (memstore.OtherType "FRIEND") (Some memstore_example.service) None
  = memstore.Return (memstore_example.after memstore_example.followed,
                     Some (memstore.Errorf "nil reference IRI")).
Proof.
  refine (proj2
    (unknown_reference_type_panics memstore_example.ID
       memstore_example.reverseSort
       memstore_example.followed
       (memstore_example.after memstore_example.followed)
       (memstore.OtherType "FRIEND")
       memstore_example.service memstore_example.alice
       memstore_example.of_service
       (memstore.mkQueryOptions 0 0 memstore.SortAscending)
       _) eq_refl).
  vm_compute. reflexivity.
Defined.

(** ** Package expiry: what a sweep deletes *)
Section ExpiryFacts.
Import expiry.
Context {World : Type}.
Variable Unix : World -> Z.

Lemma keysToDelete_yields (keys acc : list string) (rest : Iterator) :
  keysToDelete (yields keys rest) acc = keysToDelete rest (acc ++ keys)%list.
Proof.
  revert acc. induction keys as [|key keys IH]; intros acc; simpl.
  - now rewrite app_nil_r.
  - rewrite IH. now rewrite <- app_assoc.
Qed.

(** An iterator gives some keys and then ends, or fails in [Next], or fails
    in [Key]. *)
Lemma Iterator_yields (it : Iterator) :
  exists keys,
    it = yields keys IterEnd \/
    (exists e, it = yields keys (IterNextFails e)) \/
    (exists e rest, it = yields keys (IterEntry (inr e) rest)).
Proof.
  induction it as [|e|[key|e] rest IH].
  - exists []. now left.
  - exists []. right; left. now exists e.
  - destruct IH as (keys & [->|[[e ->]|(e & rest' & ->)]]); exists (key :: keys).
    + now left.
    + right; left. now exists e.
    + right; right. now exists e, rest'.
  - exists []. right; right. now exists e, rest.
Qed.

(** The loop returns keys only from an iterator that gave them all and
    ended. *)
Lemma keysToDelete_inl (it : Iterator) (keys : list string) :
  keysToDelete it [] = inl keys -> it = yields keys IterEnd.
Proof.
  destruct (Iterator_yields it) as (ks & [->|[[e ->]|(e & rest & ->)]]);
    rewrite keysToDelete_yields; simpl; congruence.
Qed.

(** X18. Expired keys are handled, then deleted. When the query of the store
    gives an iterator that lists [keys] and ends, and the handler accepts
    them, [deleteExpiredData] has called the handler once with exactly
    these keys in the order listed (also when there are none), and then,
    only if there is a key, [Batch] once with one operation per key that
    has the key and neither value nor tags; it returns the error of
    [Batch], if any, behind the text [delete expired data: ]. *)
Theorem expired_keys_are_handled_then_deleted
    (r : registeredStore World) (w w1 w2 w3 : World) (keys : list string)
    (batchErr : option string) :
  Query_ (store r) w (expiryTagName r ++ "<=" ++ format_int (Unix w))%string
  = (w1, inl (yields keys IterEnd)) ->
  HandleExpiredKeys (expiryHandler_ r) w1 keys = (w2, None) ->
  Batch_ (store r) w2 (map (fun key => mkOperation key None []) keys)
  = (w3, batchErr) ->
  registeredStore_deleteExpiredData Unix r w
  = match keys with
    | [] =>
        mkSwept w2
          [CallQuery (name r)
             (expiryTagName r ++ "<=" ++ format_int (Unix w))%string;
           CallHandleExpiredKeys (name r) []]
          None
    | _ :: _ =>
        mkSwept w3
          [CallQuery (name r)
             (expiryTagName r ++ "<=" ++ format_int (Unix w))%string;
           CallHandleExpiredKeys (name r) keys;
           CallBatch (name r) (map (fun key => mkOperation key None []) keys)]
          (option_map (fun e => "delete expired data: " ++ e)%string batchErr)
    end.
Proof.
  intros Hq Hh Hb. unfold registeredStore_deleteExpiredData.
  rewrite Hq, keysToDelete_yields. simpl. rewrite Hh.
  destruct keys as [|key keys]; [reflexivity|].
  change (0 <? length (key :: keys))%nat with true. cbv iota.
  rewrite Hb. now destruct batchErr.
Qed.

(** X19. Nothing is deleted on a partial listing. Whenever
    [deleteExpiredData] calls [Batch], the query returned an iterator that
    gave all its keys and ended without an error, there was at least one
    key, the handler was called with exactly these keys and returned no
    error, and the batch holds one operation per key; the calls made are
    the query, the handler and this one batch, in this order. *)
Theorem Batch_only_after_full_listing_and_handler
    (r : registeredStore World) (w : World) (storeName : string)
    (operations : list Operation) :
  In (CallBatch storeName operations)
     (calls (registeredStore_deleteExpiredData Unix r w)) ->
  exists w1 w2 keys,
    Query_ (store r) w (expiryTagName r ++ "<=" ++ format_int (Unix w))%string
    = (w1, inl (yields keys IterEnd)) /\
    keys <> [] /\
    HandleExpiredKeys (expiryHandler_ r) w1 keys = (w2, None) /\
    storeName = name r /\
    operations = map (fun key => mkOperation key None []) keys /\
    calls (registeredStore_deleteExpiredData Unix r w)
    = [CallQuery (name r) (expiryTagName r ++ "<=" ++ format_int (Unix w))%string;
       CallHandleExpiredKeys (name r) keys;
       CallBatch storeName operations] /\
    world (registeredStore_deleteExpiredData Unix r w)
    = fst (Batch_ (store r) w2 operations).
Proof.
  unfold registeredStore_deleteExpiredData.
  destruct (Query_ (store r) w _) as [w1 [it|e]] eqn:Hq; simpl;
    [|intros [?|[]]; discriminate].
  destruct (keysToDelete it []) as [keys|e] eqn:Hk; simpl;
    [|intros [?|[]]; discriminate].
  apply keysToDelete_inl in Hk. subst it.
  destruct (HandleExpiredKeys (expiryHandler_ r) w1 keys) as [w2 [e|]] eqn:Hh;
    simpl; [intros [?|[?|[]]]; discriminate|].
  destruct keys as [|key keys]; [intros [?|[?|[]]]; discriminate|].
  change (0 <? length (key :: keys))%nat with true. cbv iota zeta.
  set (ops := map (fun key => mkOperation key None []) (key :: keys)).
  destruct (Batch_ (store r) w2 ops) as [w3 [e|]] eqn:Hb; cbn [calls world];
    (intros [?|[?|[H|[]]]]; try discriminate; injection H as <- <-;
     exists w1, w2, (key :: keys); fold ops; rewrite Hb;
     repeat split; congruence).
Qed.

(** X20. A listing that fails. When the query fails, or the iterator fails
    in [Next] or in [Key] after any number of keys, [deleteExpiredData]
    returns the error behind the text of the step that failed, and has
    called neither the handler nor [Batch]: the keys read before the
    failure are dropped. When the handler fails, the error is returned
    behind [invoke expiry handler: ] and [Batch] is not called. *)
Theorem failed_listing_deletes_nothing
    (r : registeredStore World) (w w1 w2 : World) (keys : list string)
    (e : string) (rest : Iterator) :
  (Query_ (store r) w (expiryTagName r ++ "<=" ++ format_int (Unix w))%string
   = (w1, inr e) ->
   registeredStore_deleteExpiredData Unix r w
   = mkSwept w1
       [CallQuery (name r) (expiryTagName r ++ "<=" ++ format_int (Unix w))%string]
       (Some ("query store for expired data: " ++ e)%string)) /\
  (Query_ (store r) w (expiryTagName r ++ "<=" ++ format_int (Unix w))%string
   = (w1, inl (yields keys (IterNextFails e))) ->
   registeredStore_deleteExpiredData Unix r w
   = mkSwept w1
       [CallQuery (name r) (expiryTagName r ++ "<=" ++ format_int (Unix w))%string]
       (Some ("get next value from iterator: " ++ e)%string)) /\
  (Query_ (store r) w (expiryTagName r ++ "<=" ++ format_int (Unix w))%string
   = (w1, inl (yields keys (IterEntry (inr e) rest))) ->
   registeredStore_deleteExpiredData Unix r w
   = mkSwept w1
       [CallQuery (name r) (expiryTagName r ++ "<=" ++ format_int (Unix w))%string]
       (Some ("get key from iterator: " ++ e)%string)) /\
  (Query_ (store r) w (expiryTagName r ++ "<=" ++ format_int (Unix w))%string
   = (w1, inl (yields keys IterEnd)) ->
   HandleExpiredKeys (expiryHandler_ r) w1 keys = (w2, Some e) ->
   registeredStore_deleteExpiredData Unix r w
   = mkSwept w2
       [CallQuery (name r) (expiryTagName r ++ "<=" ++ format_int (Unix w))%string;
        CallHandleExpiredKeys (name r) keys]
       (Some ("invoke expiry handler: " ++ e)%string)).
Proof.
  unfold registeredStore_deleteExpiredData.
  repeat split; intros Hq; rewrite Hq; try rewrite keysToDelete_yields;
    simpl; try reflexivity.
  intros Hh. now rewrite Hh.
Qed.

(** One store more in the list. *)
Lemma Service_deleteExpiredData_snoc (stores : list (registeredStore World))
    (r : registeredStore World) (w : World) :
  Service_deleteExpiredData Unix (mkService (stores ++ [r])%list) w
  = mkSweep
      (world (registeredStore_deleteExpiredData Unix r
                (sweep_world (Service_deleteExpiredData Unix (mkService stores) w))))
      (sweep_calls (Service_deleteExpiredData Unix (mkService stores) w)
       ++ calls (registeredStore_deleteExpiredData Unix r
                   (sweep_world (Service_deleteExpiredData Unix (mkService stores) w))))%list
      match err (registeredStore_deleteExpiredData Unix r
                   (sweep_world (Service_deleteExpiredData Unix (mkService stores) w)))
      with
      | Some e =>
          (warnings (Service_deleteExpiredData Unix (mkService stores) w)
           ++ [(name r, e)])%list
      | None => warnings (Service_deleteExpiredData Unix (mkService stores) w)
      end.
Proof.
  unfold Service_deleteExpiredData. simpl. now rewrite fold_left_app.
Qed.

Lemma queried_app (cs1 cs2 : list Call) :
  queried (cs1 ++ cs2)%list = (queried cs1 ++ queried cs2)%list.
Proof. unfold queried. apply flat_map_app. Qed.

(** A run of one store queries it once. *)
Lemma queried_registeredStore (r : registeredStore World) (w : World) :
  queried (calls (registeredStore_deleteExpiredData Unix r w)) = [name r].
Proof.
  unfold registeredStore_deleteExpiredData.
  destruct (Query_ (store r) w _) as [w1 [it|e]]; [|reflexivity].
  destruct (keysToDelete it []) as [keys|e]; [|reflexivity].
  destruct (HandleExpiredKeys (expiryHandler_ r) w1 keys) as [w2 [e|]];
    [reflexivity|].
  destruct (0 <? length keys)%nat; [|reflexivity].
  destruct (Batch_ (store r) w2 _) as [w3 [e|]]; reflexivity.
Qed.

(** X21. A sweep visits every store. [Service.deleteExpiredData] queries
    every registered store once, in the order of registration, whatever
    errors the stores before it return: an error is logged with the name of
    its store, and the sweep goes on. The stores that are logged are among
    the registered ones, in their order. *)
Theorem sweep_visits_every_store (s : Service World) (w : World) :
  queried (sweep_calls (Service_deleteExpiredData Unix s w))
  = map name (registeredStores s) /\
  sublist (map fst (warnings (Service_deleteExpiredData Unix s w)))
    (map name (registeredStores s)).
Proof.
  destruct s as [stores]. simpl.
  induction stores as [|r stores IH] using rev_ind.
  - split; [reflexivity|constructor].
  - rewrite Service_deleteExpiredData_snoc. simpl.
    destruct IH as [IHq IHw]. rewrite map_app. simpl. split.
    + now rewrite queried_app, IHq, queried_registeredStore.
    + destruct (err _) as [e|].
      * rewrite map_app. simpl. now apply sublist_app.
      * now apply sublist_inserts_r.
Qed.

Lemma last_default {A : Type} (a : A) (l : list A) (d d' : A) :
  List.last (a :: l) d = List.last (a :: l) d'.
Proof.
  revert a. induction l as [|b l IH]; intros a; [reflexivity|].
  change (List.last (b :: l) d = List.last (b :: l) d'). apply IH.
Qed.

(** X22. The options of a registration. [Register] adds one store at the
    end and leaves the stores registered before as they are; the new store
    has the handler of the last [WithExpiryHandler] option, and the handler
    that does nothing when there is no option. *)
Theorem Register_uses_the_last_handler
    (s : Service World) (st : Store World) (expiryTagName storeName : string)
    (handlers : list (expiryHandler World)) :
  registeredStores
    (Register s st expiryTagName storeName (map WithExpiryHandler handlers))
  = (registeredStores s
     ++ [mkRegisteredStore st storeName expiryTagName
           (List.last handlers noopExpiryHandler)])%list.
Proof.
  unfold Register. simpl. f_equal. f_equal.
  generalize (@noopExpiryHandler World) as h.
  induction handlers as [|h' handlers IH]; intros h; simpl; [reflexivity|].
  unfold WithExpiryHandler at 2. simpl. rewrite IH.
  destruct handlers as [|h'' handlers]; [reflexivity|].
  f_equal. apply last_default.
Qed.
End ExpiryFacts.

(** Two expired keys in the database: both are handled and deleted. *)
Lemma expired_keys_are_handled_then_deleted_witness :
  expiry.registeredStore_deleteExpiredData expiry_example.Unix
    expiry_example.anchors expiry_example.two_keys
  = expiry.mkSwept []
      [expiry.CallQuery "anchor-status" "expiryTime<=1700000000";
       expiry.CallHandleExpiredKeys "anchor-status" ["anchor-1"; "anchor-2"];
       expiry.CallBatch "anchor-status"
         [expiry.mkOperation "anchor-1" None [];
          expiry.mkOperation "anchor-2" None []]]
      None.
Proof.
  exact (expired_keys_are_handled_then_deleted expiry_example.Unix
           expiry_example.anchors expiry_example.two_keys
           expiry_example.two_keys expiry_example.two_keys []
           expiry_example.two_keys None eq_refl eq_refl eq_refl).
Defined.

(** The batch of that run came after the full listing. *)
Lemma Batch_only_after_full_listing_witness :
  exists w1 w2 keys,
    expiry.Query_ (expiry.store expiry_example.anchors) expiry_example.two_keys
      (expiry.expiryTagName expiry_example.anchors ++ "<="
       ++ expiry.format_int (expiry_example.Unix expiry_example.two_keys))%string
    = (w1, inl (expiry.yields keys expiry.IterEnd)) /\
    keys <> [] /\
    expiry.HandleExpiredKeys (expiry.expiryHandler_ expiry_example.anchors) w1 keys
    = (w2, None) /\
    "anchor-status" = expiry.name expiry_example.anchors /\
    [expiry.mkOperation "anchor-1" None []; expiry.mkOperation "anchor-2" None []]
    = map (fun key => expiry.mkOperation key None []) keys /\
    expiry.calls
      (expiry.registeredStore_deleteExpiredData expiry_example.Unix
         expiry_example.anchors expiry_example.two_keys)
    = [expiry.CallQuery (expiry.name expiry_example.anchors)
         (expiry.expiryTagName expiry_example.anchors ++ "<="
          ++ expiry.format_int (expiry_example.Unix expiry_example.two_keys))%string;
       expiry.CallHandleExpiredKeys (expiry.name expiry_example.anchors) keys;
       expiry.CallBatch "anchor-status"
         [expiry.mkOperation "anchor-1" None [];
          expiry.mkOperation "anchor-2" None []]] /\
    expiry.world
      (expiry.registeredStore_deleteExpiredData expiry_example.Unix
         expiry_example.anchors expiry_example.two_keys)
    = fst (expiry.Batch_ (expiry.store expiry_example.anchors) w2
             [expiry.mkOperation "anchor-1" None [];
              expiry.mkOperation "anchor-2" None []]).
Proof.
  apply (Batch_only_after_full_listing_and_handler expiry_example.Unix
           expiry_example.anchors expiry_example.two_keys "anchor-status"
           [expiry.mkOperation "anchor-1" None [];
            expiry.mkOperation "anchor-2" None []]).
  vm_compute. right; right; left. reflexivity.
Defined.

(** The connection is lost after two keys were read: nothing is handled and
    nothing is deleted. *)
Lemma failed_listing_deletes_nothing_witness :
  expiry.registeredStore_deleteExpiredData expiry_example.Unix
    expiry_example.unpublished expiry_example.two_keys
  = expiry.mkSwept expiry_example.two_keys
      [expiry.CallQuery "unpublished-operation" "expirationTime<=1700000000"]
      (Some "get next value from iterator: connection lost").
Proof.
  exact (proj1 (proj2
    (failed_listing_deletes_nothing expiry_example.Unix
       expiry_example.unpublished expiry_example.two_keys
       expiry_example.two_keys expiry_example.two_keys
       expiry_example.two_keys "connection lost" expiry.IterEnd))
    eq_refl).
Defined.
